(** * uproot4: futures, executors, grouped interpretation and basket stitching

    A shallow embedding of
      - [uproot4/source/futures.py] (NoFuture, TrivialExecutor, Future, Worker,
        ThreadPoolExecutor, ResourceFuture, ResourceWorker,
        ResourceThreadPoolExecutor),
      - [uproot4/interpretation/grouped.py] (AsGrouped),
    together with the parts of the array pipeline that the test-suite
    [tests/test_0017-multi-basket-multi-branch-fetch.py] exercises (stitching of
    basket fragments, cache keys).

    Python objects that are shared and mutated (futures, the work queue, the
    workers of a pool) live in an explicit state; threads are interleaved by a
    step relation. Fallible code returns an [outcome]. *)

From Stdlib Require Import ZArith String Ascii List Lia Bool.
From Stdlib Require Import DecimalString DecimalPos DecimalZ.
From stdpp Require Import base tactics option list relations strings.

#[local] Set Warnings "-register-all".

Local Open Scope Z_scope.

(** ** Python results: a call either returns a value or raises *)

(** The exception objects that the modelled code can see.  [SystemExit],
    [KeyboardInterrupt] and [GeneratorExit] derive from [BaseException] only;
    everything else derives from [Exception]. *)
Inductive exn : Type :=
| ValueError (msg : string)
| OSError (msg : string)
| AssertionError
| AttributeError (msg : string)
| IndexError (msg : string)
| RuntimeError (msg : string)
| SystemExit
| KeyboardInterrupt
| GeneratorExit.

(** [isinstance(e, Exception)], the test made by an [except Exception:] clause. *)
Definition isinstance_Exception (e : exn) : bool :=
  match e with
  | SystemExit | KeyboardInterrupt | GeneratorExit => false
  | _ => true
  end.

Inductive outcome (A : Type) : Type :=
| Returns (a : A)
| Raises (e : exn).
Arguments Returns {A} a.
Arguments Raises {A} e.

(** ** Stitching basket fragments *)

Module Stitch.

Section Fragments.
Context {A : Type}.

(** Python's [l[a:b]] for bounds that are already non-negative; a bound past
    the end is clipped and [b <= a] gives the empty list. *)
Definition py_slice (l : list A) (a b : Z) : list A :=
  take (Z.to_nat b - Z.to_nat a)%nat (drop (Z.to_nat a) l).

(** Modelled from the spec: the Range Resolver's normalisation of an entry
    bound against the branch's total entry count ([uproot4/behaviors/TBranch.py]
    is missing): negative values add the total, and the value is clamped to
    [[0, total]]. *)
Definition normalize (total x : Z) : Z :=
  let y := if x <? 0 then x + total else x in
  Z.max 0 (Z.min total y).

(** Modelled from the spec: one fragment clipped to the intersection of its
    basket's entry range [[lo, hi)] with [[entry_start, entry_stop)]; the
    basket-level offsets locate the fragment. *)
Definition clip (fragment : list A) (lo hi entry_start entry_stop : Z) : list A :=
  py_slice fragment (Z.max lo entry_start - lo) (Z.min hi entry_stop - lo).

(** Modelled from the spec: [Interpretation.final_array] of the numerical
    interpretation ([uproot4/interpretation/numerical.py] is missing): every
    fragment is clipped to its intersection with [[entry_start, entry_stop)]
    and the clipped pieces are concatenated in basket order. *)
Fixpoint final_array (basket_arrays : list (list A)) (entry_start entry_stop : Z)
    (entry_offsets : list Z) : list A :=
  match basket_arrays, entry_offsets with
  | fragment :: rest, lo :: ((hi :: _) as offsets) =>
      clip fragment lo hi entry_start entry_stop
        ++ final_array rest entry_start entry_stop offsets
  | _, _ => []
  end.

(** Modelled from the spec: [TBranch.array] once every basket is decoded:
    the bounds are normalised against the total entry count (the last entry
    offset) and handed to [final_array]. *)
Definition array (basket_arrays : list (list A)) (entry_offsets : list Z)
    (entry_start entry_stop : Z) : list A :=
  let total := List.last entry_offsets 0 in
  final_array basket_arrays (normalize total entry_start)
    (normalize total entry_stop) entry_offsets.

(** The data-model invariant: basket [i] covers
    [[entry_offsets[i], entry_offsets[i+1])] and holds exactly that many
    entries. *)
Fixpoint consistent (basket_arrays : list (list A)) (entry_offsets : list Z) : Prop :=
  match basket_arrays, entry_offsets with
  | [], [_] => True
  | fragment :: rest, lo :: ((hi :: _) as offsets) =>
      hi = lo + Z.of_nat (length fragment) /\ consistent rest offsets
  | _, _ => False
  end.

End Fragments.

(** The data of [test_stitching_arrays]. *)
Definition test_basket_arrays : list (list Z) :=
  [[0; 1; 2; 3; 4]; [5; 6]; []; [7; 8; 9]; [10]; [11; 12; 13; 14]].
Definition test_entry_offsets : list Z := [0; 5; 7; 7; 10; 11; 15].
Definition test_expectation : list Z :=
  [0; 1; 2; 3; 4; 5; 6; 7; 8; 9; 10; 11; 12; 13; 14].

(** The loop of [test_stitching_arrays]: [start] in [range(16)], [stop] in
    [range(15, -1, -1)]. *)
Definition test_stitching_arrays : bool :=
  forallb (fun start =>
    forallb (fun stop =>
      bool_decide
        (final_array test_basket_arrays (Z.of_nat start) (Z.of_nat stop)
           test_entry_offsets
         = py_slice test_expectation (Z.of_nat start) (Z.of_nat stop)))
      (rev (seq 0 16)))
    (seq 0 16).

(** The branch [sample/i4] of [test_any_basket]: five baskets, values -15..14. *)
Definition i4_baskets : list (list Z) :=
  [[-15; -14; -13; -12; -11; -10; -9];
   [-8; -7; -6; -5; -4; -3; -2];
   [-1; 0; 1; 2; 3; 4; 5];
   [6; 7; 8; 9; 10; 11; 12];
   [13; 14]].

(** Its basket boundaries: the baskets hold 7, 7, 7, 7 and 2 entries. *)
Definition i4_entry_offsets : list Z := [0; 7; 14; 21; 28; 30].

(** The boundaries as the specification's example writes them. *)
Definition i4_entry_offsets_as_stated : list Z := [0; 7; 14; 21; 28; 29].

(** The expected value of [test_branch_array_2]. *)
Definition i4_expected_3_m5 : list Z :=
  [-12; -11; -10; -9; -8; -7; -6; -5; -4; -3; -2; -1; 0; 1; 2; 3; 4; 5; 6; 7; 8; 9].

End Stitch.

(** ** Cache keys *)

Module CacheKey.

(** [str(n)] / [{0}.format(n)] for a Python int. *)
Definition str_of_int (n : Z) : string := NilZero.string_of_int (Z.to_int n).

(** Modelled from the spec: the keys of [test_cache]
    ([uproot4/reading.py] and [uproot4/behaviors/TBranch.py] are missing).
    File- and object-level keys are prefixes of a branch's key, which is a
    prefix of the key of an array request. *)
Definition file_cache_key (file_uuid path : string) : string :=
  file_uuid +:+ ":" +:+ path.

Definition object_cache_key (file_uuid object_path : string) (cycle : Z) : string :=
  file_cache_key file_uuid object_path +:+ ";" +:+ str_of_int cycle.

Definition branch_cache_key (file_uuid object_path : string) (cycle : Z)
    (branch_name : string) (type_id : Z) : string :=
  object_cache_key file_uuid object_path cycle
    +:+ ":" +:+ branch_name +:+ "(" +:+ str_of_int type_id +:+ ")".

(** The parameters of an array request. *)
Record request : Type := Request {
  file_uuid : string;
  object_path : string;
  cycle : Z;
  branch_name : string;
  type_id : Z;
  interpretation_signature : string;   (* [interpretation.cache_key] *)
  entry_start : Z;                     (* resolved *)
  entry_stop : Z;
  library_tag : string                 (* [library.name] *)
}.

(** Modelled from the spec: [key_for] of section 4.6, the key under which
    [TBranch.array] stores its result. *)
Definition key_for (r : request) : string :=
  branch_cache_key (file_uuid r) (object_path r) (cycle r) (branch_name r) (type_id r)
    +:+ ":" +:+ interpretation_signature r
    +:+ ":" +:+ str_of_int (entry_start r) +:+ "-" +:+ str_of_int (entry_stop r)
    +:+ ":" +:+ library_tag r.

(** The documented grammar, written out flat:
    [<file-uuid>:<object-path>;<cycle>:<branch-name>(<type-id>):<interpretation-signature>:<entry_start>-<entry_stop>:<output-library-tag>]. *)
Definition documented_grammar (r : request) : string :=
  String.concat ""
    [file_uuid r; ":"; object_path r; ";"; str_of_int (cycle r); ":";
     branch_name r; "("; str_of_int (type_id r); ")"; ":";
     interpretation_signature r; ":";
     str_of_int (entry_start r); "-"; str_of_int (entry_stop r); ":";
     library_tag r]%string.

(** The request of [test_cache]: branch [sample/i4], whole range, NumPy. *)
Definition test_cache_request : request :=
  {| file_uuid := "db4be408-93ad-11ea-9027-d201a8c0beef";
     object_path := "/sample";
     cycle := 1;
     branch_name := "i4";
     type_id := 16;
     interpretation_signature := "AsDtype(Bi4(),Li4())";
     entry_start := 0;
     entry_stop := 30;
     library_tag := "np" |}.

End CacheKey.

(** ** The grouped interpretation ([uproot4/interpretation/grouped.py]) *)

Module Grouped.

(** What [AsGrouped] reads of a [TBranch]: [branch.name],
    [branch.file.file_path] and [branch.object_path]. *)
Record TBranch : Type := {
  name : string;
  file_path : string;
  object_path : string
}.

(** An interpretation is either an [AsGrouped] or some other interpretation,
    of which only [cache_key] and [typename] are read here.  [_subbranches] is
    a dict, kept as the list of its items in insertion order. *)
Inductive Interpretation : Type :=
| Other (cache_key typename : string)
| AsGrouped (_branch : TBranch) (_subbranches : list (string * Interpretation))
    (_typename : option string).

Definition newline : string := String (ascii_of_nat 10) EmptyString.

Section WithRepr.
(** Python's builtin [repr] on the keys of [_subbranches] and on branch names. *)
Variable repr : string -> string.

(** The [cache_key] property. *)
Fixpoint cache_key (self : Interpretation) : string :=
  match self with
  | Other key _ => key
  | AsGrouped branch subbranches _ =>
      "AsGrouped(" +:+ name branch +:+ ",["
        +:+ String.concat ","
              (map (fun xy => repr (fst xy) +:+ ":" +:+ cache_key (snd xy)) subbranches)
        +:+ "])"
  end.

(** The [typename] property. *)
Fixpoint typename (self : Interpretation) : string :=
  match self with
  | Other _ t => t
  | AsGrouped _ subbranches (Some t) => t
  | AsGrouped _ subbranches None =>
      "(group of "
        +:+ String.concat ", "
              (map (fun xy => fst xy +:+ ":" +:+ typename (snd xy)) subbranches)
        +:+ ")"
  end.

(** The message both decoding methods raise:
    [", ".join(repr(x) for x in self._subbranches)] iterates over the keys. *)
Definition read_subbranches_message (branch : TBranch)
    (subbranches : list (string * Interpretation)) : string :=
  "grouping branches like " +:+ repr (name branch)
    +:+ " should not be read directly; instead read the subbranches:"
    +:+ newline +:+ newline
    +:+ "    " +:+ String.concat ", " (map (fun xy => repr (fst xy)) subbranches)
    +:+ newline +:+ newline
    +:+ "in file " +:+ file_path branch +:+ newline
    +:+ "in object " +:+ object_path branch.

(** [AsGrouped.basket_array]: the arguments are ignored. *)
Definition basket_array {D O B C L R : Type} (branch_ : TBranch)
    (subbranches : list (string * Interpretation))
    (data : D) (byte_offsets : O) (basket : B) (branch : TBranch) (context : C)
    (cursor_offset : Z) (library : L) : outcome R :=
  Raises (ValueError (read_subbranches_message branch_ subbranches)).

(** [AsGrouped.final_array]: the arguments are ignored. *)
Definition final_array {F L R : Type} (branch_ : TBranch)
    (subbranches : list (string * Interpretation))
    (basket_arrays : list F) (entry_start entry_stop : Z) (entry_offsets : list Z)
    (library : L) (branch : TBranch) : outcome R :=
  Raises (ValueError (read_subbranches_message branch_ subbranches)).

End WithRepr.

(** [repr] of a [str] without quotes, backslashes or control characters. *)
Definition repr_plain (s : string) : string := "'" +:+ s +:+ "'".

End Grouped.

(** ** Futures and executors ([uproot4/source/futures.py]) *)

(** The Python values that tasks take and return. *)
Inductive pyobj : Type :=
| PyNone
| PyInt (n : Z)
| PyStr (s : string)
| PyNoFuture (_result : pyobj).    (* an instance of [NoFuture] *)

(** [timeout=None] or a number of seconds. *)
Definition timeout := option Z.

(** [delayed_raise]: raises the captured exception object itself (in
    Python 3, [exception_value.with_traceback(traceback)]). *)
Definition delayed_raise {A : Type} (excinfo : exn) : outcome A := Raises excinfo.

(** What a blocking call does while no other thread changes the object it
    waits for: it stays blocked, or it completes with an outcome. *)
Inductive call (A : Type) : Type :=
| Blocks
| Completes (o : outcome A).
Arguments Blocks {A}.
Arguments Completes {A} o.

(** [threading.Event.wait(timeout)]: returns at once when the flag is set;
    otherwise it returns when the timeout has elapsed, and never without one. *)
Definition Event_wait (flag : bool) (t : timeout) : bool :=
  flag || bool_decide (is_Some t).

(** *** Use-case 1: trivial futures and executor *)

Module NoFuture.

Definition __init__ (result : pyobj) : pyobj := PyNoFuture result.

(** [NoFuture.result(self, timeout=None)]. *)
Definition result (_result : pyobj) (t : timeout) : pyobj := _result.

End NoFuture.

(** [obj.result()] on an arbitrary Python value: only a [NoFuture] has the
    method; on anything else the attribute lookup fails. *)
Definition method_result (obj : pyobj) (t : timeout) : outcome pyobj :=
  match obj with
  | PyNoFuture r => Returns (NoFuture.result r t)
  | _ => Raises (AttributeError "object has no attribute 'result'")
  end.

Module TrivialExecutor.

(** [submit(self, task, *args)]: the task is run at once, on the caller's
    thread, and what it returns is returned as it is ([return task( *args)]). *)
Definition submit (task : list pyobj -> outcome pyobj) (args : list pyobj)
  : outcome pyobj :=
  task args.

(** [shutdown(self, wait=True)]: does nothing. *)
Definition shutdown (wait : bool) : unit := tt.

End TrivialExecutor.

(** *** Use-case 2: Python-like futures for compute *)

Module Future.

Record t : Type := Make {
  _task : list pyobj -> outcome pyobj;
  _args : list pyobj;
  _finished : bool;            (* a [threading.Event] *)
  _result : pyobj;
  _excinfo : option exn        (* [sys.exc_info()] of the captured exception *)
}.

Definition __init__ (task : list pyobj -> outcome pyobj) (args : list pyobj) : t :=
  {| _task := task; _args := args; _finished := false;
     _result := PyNone; _excinfo := None |}.

(** [result(self, timeout=None)]. *)
Definition result (self : t) (tm : timeout) : call pyobj :=
  if Event_wait (_finished self) tm then
    match _excinfo self with
    | None => Completes (Returns (_result self))
    | Some excinfo => Completes (delayed_raise excinfo)
    end
  else Blocks.

(** [_run(self)]: the new state of the future, and how the call itself ends
    (an exception that [except Exception:] does not catch leaves it before
    [self._finished.set()]). *)
Definition _run (self : t) : t * outcome unit :=
  match _task self (_args self) with
  | Returns v =>
      ({| _task := _task self; _args := _args self; _finished := true;
          _result := v; _excinfo := _excinfo self |}, Returns tt)
  | Raises e =>
      if isinstance_Exception e then
        ({| _task := _task self; _args := _args self; _finished := true;
            _result := _result self; _excinfo := Some e |}, Returns tt)
      else (self, Raises e)
  end.

End Future.

(** *** Use-case 3: worker-bound resources for I/O *)

(** Modelled from the spec: a [Resource] ([uproot4/source/chunk.py] is
    missing) is an I/O handle on a file; [__enter__] opens the handle and
    [__exit__] releases it. *)
Record Resource : Type := {
  file_path : string;
  is_open : bool
}.

Definition Resource_enter (r : Resource) : Resource :=
  {| file_path := file_path r; is_open := true |}.

Definition Resource_exit (r : Resource) : Resource :=
  {| file_path := file_path r; is_open := false |}.

(** What the program does that an observer outside the futures can see: calls
    of notification callbacks, each callback known by a number. *)
Inductive event : Type :=
| Notified (callback : nat).

Module ResourceFuture.

Record t : Type := Make {
  _task : Resource -> outcome pyobj;
  _finished : bool;
  _result : pyobj;
  _excinfo : option exn;
  _notify : option nat
}.

(** [__init__(self, task)]: [_args] is [None] and never read. *)
Definition __init__ (task : Resource -> outcome pyobj) : t :=
  {| _task := task; _finished := false; _result := PyNone;
     _excinfo := None; _notify := None |}.

Definition _set_notify (self : t) (notify : nat) : t :=
  {| _task := _task self; _finished := _finished self; _result := _result self;
     _excinfo := _excinfo self; _notify := Some notify |}.

(** [if self._notify is not None: self._notify()].  The call is recorded;
    what the callback does, and an exception it may raise (it is called
    outside the [try]), are not part of the model: nothing is stated below
    about the thread that has called a callback. *)
Definition call_notify (self : t) : list event :=
  match _notify self with
  | Some callback => [Notified callback]
  | None => []
  end.

(** [_set_excinfo(self, excinfo)]: the new state and the callbacks called. *)
Definition _set_excinfo (self : t) (excinfo : exn) : t * list event :=
  if negb (_finished self) then
    let self' :=
      {| _task := _task self; _finished := true; _result := _result self;
         _excinfo := Some excinfo; _notify := _notify self |} in
    (self', call_notify self')
  else (self, []).

(** [result] is inherited from [Future]. *)
Definition result (self : t) (tm : timeout) : call pyobj :=
  if Event_wait (_finished self) tm then
    match _excinfo self with
    | None => Completes (Returns (_result self))
    | Some excinfo => Completes (delayed_raise excinfo)
    end
  else Blocks.

(** [_run(self, resource)]: the new state, the callbacks called, and how the
    call ends. *)
Definition _run (self : t) (resource : Resource) : t * list event * outcome unit :=
  match _task self resource with
  | Returns v =>
      let self' :=
        {| _task := _task self; _finished := true; _result := v;
           _excinfo := _excinfo self; _notify := _notify self |} in
      (self', call_notify self', Returns tt)
  | Raises e =>
      if isinstance_Exception e then
        let self' :=
          {| _task := _task self; _finished := true; _result := _result self;
             _excinfo := Some e; _notify := _notify self |} in
        (self', call_notify self', Returns tt)
      else (self, [], Raises e)
  end.

End ResourceFuture.

(** *** Threads, queue and pools *)

(** Where a worker thread stands in the loop of [run]. *)
Inductive thread : Type :=
| Waiting                  (* alive, at [future = self._work_queue.get()] *)
| Running (future : nat)   (* alive, holding the future it took from the queue *)
| Terminated.              (* [run] has ended *)

(** A [Worker] ([_resource = None]) or a [ResourceWorker] bound to a resource. *)
Record worker : Type := {
  _resource : option Resource;
  state : thread
}.

(** [threading.Thread.is_alive()]. *)
Definition is_alive (w : worker) : bool :=
  match state w with
  | Terminated => false
  | _ => true
  end.

(** The objects on the heap that the queue refers to. *)
Inductive future_obj : Type :=
| AFuture (f : Future.t)
| AResourceFuture (f : ResourceFuture.t).

(** A [ThreadPoolExecutor] or [ResourceThreadPoolExecutor] with everything it
    shares with its workers and clients.  Futures are referred to by their
    position on the heap; the queue holds references, [None] being the
    sentinel. *)
Record pool : Type := {
  heap : list future_obj;
  _work_queue : list (option nat);
  _workers : list worker;
  _closed : bool;
  trace : list event
}.

Definition set_heap (h : list future_obj) (p : pool) : pool :=
  {| heap := h; _work_queue := _work_queue p; _workers := _workers p;
     _closed := _closed p; trace := trace p |}.

Definition set_queue (q : list (option nat)) (p : pool) : pool :=
  {| heap := heap p; _work_queue := q; _workers := _workers p;
     _closed := _closed p; trace := trace p |}.

Definition set_workers (ws : list worker) (p : pool) : pool :=
  {| heap := heap p; _work_queue := _work_queue p; _workers := ws;
     _closed := _closed p; trace := trace p |}.

Definition set_closed (b : bool) (p : pool) : pool :=
  {| heap := heap p; _work_queue := _work_queue p; _workers := _workers p;
     _closed := b; trace := trace p |}.

Definition emit (evs : list event) (p : pool) : pool :=
  {| heap := heap p; _work_queue := _work_queue p; _workers := _workers p;
     _closed := _closed p; trace := trace p ++ evs |}.

(** [self._work_queue.put(item)]. *)
Definition put (item : option nat) (p : pool) : pool :=
  set_queue (_work_queue p ++ [item]) p.

Definition set_future (fid : nat) (obj : future_obj) (p : pool) : pool :=
  set_heap (<[fid := obj]> (heap p)) p.

Definition set_thread (i : nat) (st : thread) (p : pool) : pool :=
  set_workers (alter (fun w => {| _resource := _resource w; state := st |}) i (_workers p)) p.

(** [worker.resource.__exit__(...)] for worker [i]. *)
Definition release (i : nat) (p : pool) : pool :=
  set_workers
    (alter (fun w => {| _resource := Resource_exit <$> _resource w; state := state w |})
       i (_workers p)) p.

(** A thread whose call of [_run] ended goes back to the queue; an exception
    that leaves [_run] leaves [run] too and ends the thread. *)
Definition after_run (out : outcome unit) : thread :=
  match out with
  | Returns _ => Waiting
  | Raises _ => Terminated
  end.

(** One step of worker [i] in [Worker.run] / [ResourceWorker.run]; [None] when
    the thread cannot move (it has ended, or the queue is empty and [get]
    blocks). *)
Definition worker_step (i : nat) (p : pool) : option pool :=
  w ← _workers p !! i;
  match state w with
  | Terminated => None
  | Waiting =>
      match _work_queue p with
      | [] => None
      | None :: q => Some (set_thread i Terminated (set_queue q p))
      | Some fid :: q => Some (set_thread i (Running fid) (set_queue q p))
      end
  | Running fid =>
      obj ← heap p !! fid;
      match _resource w, obj with
      | None, AFuture f =>
          (* [assert not isinstance(future, ResourceFuture); future._run()] *)
          let '(f', out) := Future._run f in
          Some (set_thread i (after_run out) (set_future fid (AFuture f') p))
      | Some r, AResourceFuture f =>
          (* [assert isinstance(future, ResourceFuture); future._run(self._resource)] *)
          let '(f', evs, out) := ResourceFuture._run f r in
          Some (set_thread i (after_run out)
                  (emit evs (set_future fid (AResourceFuture f') p)))
      | _, _ =>
          (* the assertion fails *)
          Some (set_thread i Terminated p)
      end
  end.

Module ThreadPoolExecutor.

(** [__init__(self, num_workers=None)]; [cpu_count] is [os.cpu_count()].  The
    workers are created and started: each is alive, waiting on the queue. *)
Definition __init__ (cpu_count : nat) (num_workers : option nat) : pool :=
  let n := default cpu_count num_workers in
  {| heap := []; _work_queue := [];
     _workers := replicate n {| _resource := None; state := Waiting |};
     _closed := false; trace := [] |}.

Definition num_workers (self : pool) : nat := length (_workers self).

(** [submit(self, task, *args)]: a new [Future] is put on the queue and
    returned. *)
Definition submit (self : pool) (task : list pyobj -> outcome pyobj)
    (args : list pyobj) : nat * pool :=
  let future := length (heap self) in
  (future, put (Some future) (set_heap (heap self ++ [AFuture (Future.__init__ task args)]) self)).

End ThreadPoolExecutor.

Module ResourceThreadPoolExecutor.

(** [__init__(self, resources)]. *)
Definition __init__ (resources : list Resource) : outcome pool :=
  if (length resources <? 1)%nat then
    Raises (ValueError "at least one worker is required")
  else
    Returns
      {| heap := []; _work_queue := [];
         _workers := map (fun r => {| _resource := Some r; state := Waiting |}) resources;
         _closed := false; trace := [] |}.

(** The [closed] property. *)
Definition closed (self : pool) : bool := _closed self.

(** [self._workers[0].resource.file_path]. *)
Definition first_file_path (self : pool) : outcome string :=
  match _workers self !! 0%nat with
  | None => Raises (IndexError "list index out of range")
  | Some w =>
      match _resource w with
      | None => Raises (AttributeError "object has no attribute 'file_path'")
      | Some r => Returns (file_path r)
      end
  end.

(** [__enter__(self)]: [worker.resource.__enter__()] for every worker. *)
Definition __enter__ (self : pool) : pool :=
  set_workers
    (map (fun w => {| _resource := Resource_enter <$> _resource w; state := state w |})
       (_workers self)) self.

(** [submit(self, future)]: what the call gives, and the pool afterwards. *)
Definition submit (self : pool) (future : nat) : outcome nat * pool :=
  match heap self !! future with
  | Some (AResourceFuture _) =>
      if closed self then
        match first_file_path self with
        | Returns path => (Raises (OSError ("resource is closed for file " +:+ path)), self)
        | Raises e => (Raises e, self)
        end
      else (Returns future, put (Some future) self)
  | _ => (Raises AssertionError, self)
  end.

End ResourceThreadPoolExecutor.

(** *** The thread that shuts a pool down *)

(** [shutdown] is called by a client or by [__exit__]. *)
Inductive caller : Type :=
| Direct
| FromExit.

(** Where the client thread stands in [ThreadPoolExecutor.shutdown] and
    [ResourceThreadPoolExecutor.__exit__]. *)
Inductive pc : Type :=
| Ready                           (* outside both methods *)
| ForWorker (c : caller) (i : nat)  (* [for worker in self._workers:] at worker [i] *)
| AnyAlive (c : caller) (j : nat)   (* [any(worker.is_alive() ...)] at worker [j] *)
| Sleep (c : caller)                (* [time.sleep(0.001)] *)
| ShutdownReturned (c : caller)     (* [break]: [shutdown] has returned *)
| ExitResource (k : nat)            (* [__exit__]: [worker.resource.__exit__] at worker [k] *)
| ExitReturned.                     (* [self._closed = True] is done *)

(** One step of the client thread inside [shutdown] / [__exit__]. *)
Definition main_step (at_ : pc) (p : pool) : option (pc * pool) :=
  match at_ with
  | Ready => None
  | ForWorker c i =>
      match _workers p !! i with
      | Some w => Some (ForWorker c (S i), if is_alive w then put None p else p)
      | None => Some (AnyAlive c 0, p)
      end
  | AnyAlive c j =>
      match _workers p !! j with
      | Some w => if is_alive w then Some (Sleep c, p) else Some (AnyAlive c (S j), p)
      | None => Some (ShutdownReturned c, p)
      end
  | Sleep c => Some (ForWorker c 0, p)
  | ShutdownReturned Direct => Some (Ready, p)
  | ShutdownReturned FromExit => Some (ExitResource 0, p)
  | ExitResource k =>
      match _workers p !! k with
      | Some w =>
          match _resource w with
          | Some _ => Some (ExitResource (S k), release k p)
          | None => Some (Ready, p)     (* AttributeError: [__exit__] is left *)
          end
      | None => Some (ExitReturned, set_closed true p)
      end
  | ExitReturned => Some (Ready, p)
  end.

(** What can happen next in a pool: a worker moves, the thread inside
    [shutdown] / [__exit__] moves, or a client calls a method. *)
Inductive action : Type :=
| WorkerStep (i : nat)
| MainStep
| CallShutdown                       (* [executor.shutdown()] *)
| CallClose                          (* [executor.close()], i.e. [__exit__(None, None, None)] *)
| SubmitTask (task : list pyobj -> outcome pyobj) (args : list pyobj)
| NewResourceFuture (task : Resource -> outcome pyobj)
| SubmitFuture (future : nat)
| SetNotify (future : nat) (notify : nat)
| SetExcinfo (future : nat) (excinfo : exn).

Definition perform (a : action) (s : pc * pool) : option (pc * pool) :=
  let '(at_, p) := s in
  match a with
  | WorkerStep i => p' ← worker_step i p; Some (at_, p')
  | MainStep => main_step at_ p
  | CallShutdown =>
      match at_ with Ready => Some (ForWorker Direct 0, p) | _ => None end
  | CallClose =>
      match at_ with Ready => Some (ForWorker FromExit 0, p) | _ => None end
  | SubmitTask task args => Some (at_, (ThreadPoolExecutor.submit p task args).2)
  | NewResourceFuture task =>
      Some (at_, set_heap (heap p ++ [AResourceFuture (ResourceFuture.__init__ task)]) p)
  | SubmitFuture future => Some (at_, (ResourceThreadPoolExecutor.submit p future).2)
  | SetNotify future notify =>
      match heap p !! future with
      | Some (AResourceFuture f) =>
          Some (at_, set_future future
                       (AResourceFuture (ResourceFuture._set_notify f notify)) p)
      | _ => None
      end
  | SetExcinfo future excinfo =>
      match heap p !! future with
      | Some (AResourceFuture f) =>
          let '(f', evs) := ResourceFuture._set_excinfo f excinfo in
          Some (at_, emit evs (set_future future (AResourceFuture f') p))
      | _ => None
      end
  end.

(** Whether an action is a step of the thread inside [shutdown] / [__exit__]. *)
#[local] Instance action_eq_MainStep_dec (a : action) : Decision (a = MainStep).
Proof. destruct a; (by left) || (by right). Defined.

Definition step (s s' : pc * pool) : Prop := exists a, perform a s = Some s'.

(** Running a schedule, one action after the other. *)
Fixpoint run (schedule : list action) (s : pc * pool) : option (pc * pool) :=
  match schedule with
  | [] => Some s
  | a :: rest => s' ← perform a s; run rest s'
  end.

(** Every worker thread has ended. *)
Definition all_terminated (p : pool) : Prop :=
  Forall (fun w => is_alive w = false) (_workers p).

(** The resources of the workers, in order. *)
Definition resources (p : pool) : list (option Resource) :=
  map _resource (_workers p).

(** No resource is open any more. *)
Definition all_released (p : pool) : Prop :=
  Forall (fun w => is_open <$> _resource w = Some false) (_workers p).

(** *** What stays true of a worker, and the invariant of shutting down *)

(** What every step keeps of a worker: a thread that has ended stays ended,
    the file of its resource stays the same, and a released resource stays
    released. *)
Definition evolves (w w' : worker) : Prop :=
  (is_alive w = false -> is_alive w' = false)
  /\ file_path <$> _resource w' = file_path <$> _resource w
  /\ (is_open <$> _resource w = Some false -> is_open <$> _resource w' = Some false).

(** The first [j] worker threads have ended. *)
Definition terminated_before (j : nat) (p : pool) : Prop :=
  Forall (fun w => is_alive w = false) (take j (_workers p)).

(** The resources of the first [k] workers are released. *)
Definition released_before (k : nat) (p : pool) : Prop :=
  Forall (fun w => is_open <$> _resource w = Some false) (take k (_workers p)).

(** What the client thread knows at each point of [shutdown] and [__exit__],
    and what a set [_closed] flag stands for. *)
Definition shutdown_invariant (s : pc * pool) : Prop :=
  match s.1 with
  | AnyAlive _ j => terminated_before j s.2
  | ShutdownReturned _ => all_terminated s.2
  | ExitResource k => all_terminated s.2 /\ released_before k s.2
  | ExitReturned => all_terminated s.2 /\ all_released s.2 /\ _closed s.2 = true
  | _ => True
  end
  /\ (_closed s.2 = true -> all_terminated s.2 /\ all_released s.2).

(** What every step keeps of a pool whose first worker is bound to a resource
    on [path]. *)
Definition first_worker_on (path : string) (p : pool) : Prop :=
  exists w r, _workers p !! 0%nat = Some w /\ _resource w = Some r /\ file_path r = path.

(** *** A pool of two resources that is closed *)

Definition example_resources : list Resource :=
  [{| file_path := "sample.root"; is_open := true |};
   {| file_path := "sample.root"; is_open := true |}].

(** The pool that [ResourceThreadPoolExecutor(example_resources)] builds. *)
Definition example_pool : pool :=
  match ResourceThreadPoolExecutor.__init__ example_resources with
  | Returns p => p
  | Raises _ => set_closed true (ThreadPoolExecutor.__init__ 0 None)
  end.

(** [close()] while both workers wait on the queue: the client puts two
    sentinels, finds worker 0 still alive and sleeps; worker 0 takes its
    sentinel; the client puts one more for worker 1 and checks again after
    worker 1 has ended; then it releases both resources and sets the flag. *)
Definition example_close_schedule : list action :=
  [CallClose; MainStep; MainStep; MainStep;
   MainStep; WorkerStep 0; MainStep;
   MainStep; MainStep; MainStep; WorkerStep 1;
   MainStep; MainStep; MainStep;
   MainStep; MainStep; MainStep; MainStep].

Definition example_closed_pool : pool :=
  {| heap := [];
     _work_queue := [None];
     _workers :=
       [{| _resource := Some {| file_path := "sample.root"; is_open := false |};
           state := Terminated |};
        {| _resource := Some {| file_path := "sample.root"; is_open := false |};
           state := Terminated |}];
     _closed := true;
     trace := [] |}.

(** *** A pool of one worker with two tasks submitted *)

(** [lambda x: x + 1]. *)
Definition increment_task (args : list pyobj) : outcome pyobj :=
  match args with
  | [PyInt n] => Returns (PyInt (n + 1))
  | _ => Raises (ValueError "expected one int")
  end.

(** A task that raises an [Exception]. *)
Definition failing_task (args : list pyobj) : outcome pyobj :=
  Raises (ValueError "bad basket").

(** A task that calls [sys.exit()]. *)
Definition exiting_task (args : list pyobj) : outcome pyobj :=
  Raises SystemExit.

(** [ThreadPoolExecutor(1)], then [submit(task)] and
    [submit(increment_task, 6)], then the worker takes the first future off
    the queue. *)
Definition example_running (task : list pyobj -> outcome pyobj) : pool :=
  match
    run [SubmitTask task []; SubmitTask increment_task [PyInt 6]; WorkerStep 0]
      (Ready, ThreadPoolExecutor.__init__ 4 (Some 1%nat))
  with
  | Some s => s.2
  | None => ThreadPoolExecutor.__init__ 4 (Some 1%nat)
  end.

(** *** A closed pool and a future made afterwards *)

Definition read_task (resource : Resource) : outcome pyobj :=
  if is_open resource then Returns (PyStr (file_path resource))
  else Raises (OSError "I/O operation on closed file").

(** The closed pool after a client has made one more [ResourceFuture]. *)
Definition example_closed_pool_with_future : pool :=
  set_heap [AResourceFuture (ResourceFuture.__init__ read_task)] example_closed_pool.

(** *** A resource future with a notification callback, taken by a worker *)

(** In the pool of two resources a client makes a [ResourceFuture] for
    [read_task], sets callback 7 on it and submits it; worker 0 takes it. *)
Definition example_notifying : pc * pool :=
  match
    run [NewResourceFuture read_task; SetNotify 0 7; SubmitFuture 0; WorkerStep 0]
      (Ready, example_pool)
  with
  | Some s => s
  | None => (Ready, example_pool)
  end.

(** *** A task submitted to a pool whose workers have ended *)

(** [ThreadPoolExecutor(2)] after [shutdown()]: the client puts two
    sentinels, each worker takes one, and the client finds both ended. *)
Definition example_shut_down : pool :=
  match
    run [CallShutdown; MainStep; MainStep; MainStep; WorkerStep 0; WorkerStep 1;
         MainStep; MainStep; MainStep; MainStep]
      (Ready, ThreadPoolExecutor.__init__ 4 (Some 2%nat))
  with
  | Some s => s.2
  | None => ThreadPoolExecutor.__init__ 4 (Some 0%nat)
  end.

(** [submit(increment_task, 6)] on that pool, and then another [shutdown()]. *)
Definition example_submitted_after_shutdown : pc * pool :=
  match
    run [CallShutdown; MainStep; MainStep; MainStep; MainStep; MainStep; MainStep; MainStep]
      (Ready, (ThreadPoolExecutor.submit example_shut_down increment_task [PyInt 6]).2)
  with
  | Some s => s
  | None => (Ready, example_shut_down)
  end.

(** *** Who still refers to a future *)

(** The number of elements of a list that pass a test. *)
Fixpoint count {A : Type} (test : A -> bool) (l : list A) : nat :=
  match l with
  | [] => 0
  | x :: rest => ((if test x then 1 else 0) + count test rest)%nat
  end.

(** The queue item is the future [future]. *)
Definition refers (future : nat) (item : option nat) : bool :=
  bool_decide (item = Some future).

(** The worker holds the future [future], taken from the queue. *)
Definition running (future : nat) (w : worker) : bool :=
  match state w with
  | Running held => bool_decide (held = future)
  | _ => false
  end.

(** How often the future is on the queue or in the hands of a worker. *)
Definition refcount (future : nat) (p : pool) : nat :=
  (count (refers future) (_work_queue p) + count (running future) (_workers p))%nat.

(** A plain [Future] is referred to at most once, and not at all once it is
    finished; nothing refers to a place of the heap that is not in use. *)
Definition run_once_invariant (p : pool) : Prop :=
  forall future,
    match heap p !! future with
    | Some (AFuture f) =>
        (refcount future p <= 1)%nat
        /\ (Future._finished f = true -> refcount future p = 0%nat)
    | Some (AResourceFuture _) => True
    | None => refcount future p = 0%nat
    end.

(** [ThreadPoolExecutor(1)] with a failing task and [increment_task]
    submitted, after the worker has run the first. *)
Definition example_first_done : pc * pool :=
  match run [WorkerStep 0] (Ready, example_running failing_task) with
  | Some s => s
  | None => (Ready, example_running failing_task)
  end.

(** The same pool after the worker has run the second task too and the pool
    has been shut down. *)
Definition example_all_done : pc * pool :=
  match
    run [WorkerStep 0; WorkerStep 0; CallShutdown; MainStep; MainStep; WorkerStep 0;
         MainStep; MainStep; MainStep]
      example_first_done
  with
  | Some s => s
  | None => example_first_done
  end.

(** *** Shutting down a pool that is idle *)

(** The worker once its thread has ended. *)
Definition ended (w : worker) : worker :=
  {| _resource := _resource w; state := Terminated |}.

(** The workers when the first [k] threads have ended. *)
Definition ended_upto (k : nat) (ws : list worker) : list worker :=
  (ended <$> take k ws) ++ drop k ws.

(** [shutdown()] of a pool of [n] workers when the scheduler lets the client
    finish its loop over the workers, then every worker take one item, then
    the client check and return. *)
Definition shutdown_schedule (n : nat) : list action :=
  CallShutdown :: replicate (S n) MainStep
    ++ (WorkerStep <$> seq 0 n)
    ++ replicate (S n) MainStep ++ [MainStep].

(** *** A resource pool used through its own methods *)

(** The place on the heap holds a [ResourceFuture]. *)
Definition resource_ref (p : pool) (future : nat) : Prop :=
  exists f, heap p !! future = Some (AResourceFuture f).

(** Every worker is a [ResourceWorker], and whatever is on the queue or in
    the hands of a worker is a [ResourceFuture]. *)
Definition resource_pool_invariant (p : pool) : Prop :=
  Forall (fun w => is_Some (_resource w)) (_workers p)
  /\ (forall future, Some future ∈ _work_queue p -> resource_ref p future)
  /\ (forall i w future,
        _workers p !! i = Some w -> state w = Running future -> resource_ref p future).

(** [ResourceThreadPoolExecutor] overrides [submit]: its clients do not call
    [ThreadPoolExecutor.submit]. *)
Definition own_method (a : action) : Prop :=
  match a with
  | SubmitTask _ _ => False
  | _ => True
  end.

(** *** Tasks submitted before [shutdown] *)

(** A call [task( *args)] that raises nothing but instances of [Exception]. *)
Definition caught (task : list pyobj -> outcome pyobj) (args : list pyobj) : Prop :=
  forall e, task args = Raises e -> isinstance_Exception e = true.

(** What happens in a [ThreadPoolExecutor] on which [shutdown] has not been
    called: workers move, and clients submit tasks; the tasks considered raise
    nothing but instances of [Exception]. *)
Definition before_shutdown (a : action) : Prop :=
  match a with
  | WorkerStep _ => True
  | SubmitTask task args => caught task args
  | _ => False
  end.

(** What happens in a [ThreadPoolExecutor]: workers move, clients submit
    tasks of any kind and call [shutdown], and [shutdown] moves. *)
Definition plain_method (a : action) : Prop :=
  match a with
  | WorkerStep _ | MainStep | CallShutdown | SubmitTask _ _ => True
  | _ => False
  end.

(** A worker has taken the future from the queue and not yet run it. *)
Definition held_by (p : pool) (future : nat) : Prop :=
  exists i w, _workers p !! i = Some w /\ state w = Running future.

(** A future whose task raises nothing but instances of [Exception], and
    which, once finished, gives back what its task gives. *)
Definition settled (f : Future.t) : Prop :=
  caught (Future._task f) (Future._args f)
  /\ if Future._finished f
     then forall tm, Future.result f tm = Completes (Future._task f (Future._args f))
     else Future._excinfo f = None.

(** A worker that waits on the queue or holds one of the first [n0] futures. *)
Definition serving (n0 : nat) (w : worker) : Prop :=
  state w = Waiting \/ exists future, state w = Running future /\ (future < n0)%nat.

(** The first [n0] futures of the heap are served before anything else: those
    still on the queue are at its head, [fs], before every sentinel and every
    later future; as long as one of them is on the queue every worker is alive
    and busy with them only; and one that is not finished is on the queue or
    in the hands of a worker.  [open] says that nothing but these futures has
    been put on the queue. *)
Definition drains (open : bool) (n0 : nat) (p : pool) : Prop :=
  exists fs rest,
    _work_queue p = (Some <$> fs) ++ rest
    /\ (open = true -> rest = [])
    /\ Forall (fun future => (future < n0)%nat) fs
    /\ (open = true \/ fs <> [] -> Forall (serving n0) (_workers p))
    /\ Forall (fun w => _resource w = None) (_workers p)
    /\ _workers p <> []
    /\ (forall future, (future < n0)%nat ->
          exists f, heap p !! future = Some (AFuture f) /\ settled f
            /\ (Future._finished f = false -> future ∈ fs \/ held_by p future)).

(** *** Reading a key back *)

Module KeyReader.

(** Whether the character occurs in the string. *)
Fixpoint contains (c : ascii) (s : string) : bool :=
  match s with
  | EmptyString => false
  | String a rest => Ascii.eqb a c || contains c rest
  end.

(** [s.partition(c)]: the text before and after the first [c]. *)
Fixpoint split_first (c : ascii) (s : string) : option (string * string) :=
  match s with
  | EmptyString => None
  | String a rest =>
      if Ascii.eqb a c then Some (EmptyString, rest)
      else
        match split_first c rest with
        | Some (before, after) => Some (String a before, after)
        | None => None
        end
  end.

(** [s.rpartition(c)]: the text before and after the last [c]. *)
Fixpoint split_last (c : ascii) (s : string) : option (string * string) :=
  match s with
  | EmptyString => None
  | String a rest =>
      match split_last c rest with
      | Some (before, after) => Some (String a before, after)
      | None => if Ascii.eqb a c then Some (EmptyString, rest) else None
      end
  end.

(** [int(s)] for a decimal numeral. *)
Definition int_of_str (s : string) : option Z :=
  Z.of_int <$> NilZero.int_of_string s.

(** Modelled from the spec: a reader of the documented grammar
    [<file-uuid>:<object-path>;<cycle>:<branch-name>(<type-id>):<interpretation-signature>:<entry_start>-<entry_stop>:<output-library-tag>]
    (no code that reads keys is in the repository).  The fields before the
    interpretation signature are read from the left, each up to its
    separator; the library tag and the entry range are read from the right,
    since a signature may itself contain colons; what is left in between is
    the signature.  A string that does not have this form is not a key. *)
Definition read_key (key : string) : option CacheKey.request :=
  '(uuid, k1) ← split_first ":" key;
  '(path, k2) ← split_first ";" k1;
  '(cycle_text, k3) ← split_first ":" k2;
  '(name, k4) ← split_first "(" k3;
  '(type_text, k5) ← split_first ")" k4;
  '(nothing, k6) ← split_first ":" k5;
  '(k7, tag) ← split_last ":" k6;
  '(signature, range) ← split_last ":" k7;
  '(start_text, stop_text) ← split_first "-" range;
  cycle ← int_of_str cycle_text;
  type_id ← int_of_str type_text;
  start ← int_of_str start_text;
  stop ← int_of_str stop_text;
  if decide (nothing = EmptyString) then
    Some {| CacheKey.file_uuid := uuid; CacheKey.object_path := path;
            CacheKey.cycle := cycle; CacheKey.branch_name := name;
            CacheKey.type_id := type_id;
            CacheKey.interpretation_signature := signature;
            CacheKey.entry_start := start; CacheKey.entry_stop := stop;
            CacheKey.library_tag := tag |}
  else None.

(** The request parameters for which the grammar can be read without
    ambiguity: no field contains the separator that ends it, and the entry
    range is resolved (its start is not negative). *)
Definition well_formed (r : CacheKey.request) : Prop :=
  contains ":" (CacheKey.file_uuid r) = false
  /\ contains ";" (CacheKey.object_path r) = false
  /\ contains "(" (CacheKey.branch_name r) = false
  /\ contains ":" (CacheKey.library_tag r) = false
  /\ 0 <= CacheKey.entry_start r.

End KeyReader.

(** * Properties *)

(** ** Stitching *)

Section StitchFacts.
Context {A : Type}.
Implicit Types (l fragment : list A) (basket_arrays : list (list A)).
Import Stitch.

Lemma py_slice_nil a b : py_slice (@nil A) a b = [].
Proof. unfold py_slice. by rewrite drop_nil, take_nil. Qed.

Lemma py_slice_empty l a b : b <= a -> py_slice l a b = [].
Proof.
  intros Hba. unfold py_slice.
  replace (Z.to_nat b - Z.to_nat a)%nat with 0%nat by lia. done.
Qed.

Lemma py_slice_past_end l a b : Z.of_nat (length l) <= a -> py_slice l a b = [].
Proof.
  intros Hla. unfold py_slice. rewrite drop_ge by lia. apply take_nil.
Qed.

Lemma py_slice_all l : py_slice l 0 (Z.of_nat (length l)) = l.
Proof.
  unfold py_slice. rewrite Nat2Z.id, Z2Nat.inj_0, Nat.sub_0_r, drop_0.
  by apply take_ge.
Qed.

(** A slice of two lists put together is the two slices put together. *)
Lemma py_slice_app l1 l2 a b :
  py_slice (l1 ++ l2) a b
  = py_slice l1 a b
      ++ py_slice l2 (a - Z.of_nat (length l1)) (b - Z.of_nat (length l1)).
Proof.
  unfold py_slice. rewrite drop_app, take_app, length_drop.
  f_equal.
  replace (Z.to_nat (a - Z.of_nat (length l1))) with (Z.to_nat a - length l1)%nat by lia.
  f_equal. lia.
Qed.

(** Clipping a fragment to its basket's range is slicing it at the requested
    bounds, counted from the basket's first entry. *)
Lemma clip_py_slice fragment lo hi entry_start entry_stop :
  hi = lo + Z.of_nat (length fragment) ->
  clip fragment lo hi entry_start entry_stop
  = py_slice fragment (entry_start - lo) (entry_stop - lo).
Proof.
  intros ->. unfold clip, py_slice.
  replace (Z.to_nat (Z.max lo entry_start - lo)) with (Z.to_nat (entry_start - lo)) by lia.
  set (a := Z.to_nat (entry_start - lo)).
  destruct (Z_le_gt_dec entry_stop (lo + Z.of_nat (length fragment))) as [Hle | Hgt].
  - by rewrite Z.min_r by lia.
  - rewrite Z.min_l by lia.
    rewrite !take_ge; [done | rewrite length_drop; lia ..].
Qed.

Lemma final_array_py_slice basket_arrays :
  forall lo offsets entry_start entry_stop,
    consistent basket_arrays (lo :: offsets) ->
    final_array basket_arrays entry_start entry_stop (lo :: offsets)
    = py_slice (concat basket_arrays) (entry_start - lo) (entry_stop - lo).
Proof.
  induction basket_arrays as [| fragment rest IH]; intros lo offsets s e Hc.
  - simpl. by rewrite py_slice_nil.
  - destruct offsets as [| hi offsets']; [done |].
    destruct Hc as [Hhi Hrest].
    cbn [final_array concat]. rewrite (clip_py_slice _ _ _ _ _ Hhi), (IH _ _ _ _ Hrest).
    rewrite py_slice_app. do 2 f_equal; lia.
Qed.

(** The last entry offset is the number of entries. *)
Lemma consistent_total basket_arrays :
  forall lo offsets,
    consistent basket_arrays (lo :: offsets) ->
    List.last (lo :: offsets) 0 = lo + Z.of_nat (length (concat basket_arrays)).
Proof.
  induction basket_arrays as [| fragment rest IH]; intros lo offsets Hc.
  - destruct offsets; [simpl; lia | done].
  - destruct offsets as [| hi offsets']; [done |].
    destruct Hc as [Hhi Hrest].
    change (List.last (lo :: hi :: offsets') 0) with (List.last (hi :: offsets') 0).
    rewrite (IH _ _ Hrest). cbn [concat]. rewrite length_app. lia.
Qed.

Lemma normalize_bounds total x : 0 <= total -> 0 <= normalize total x <= total.
Proof. intros Ht. unfold normalize. destruct (x <? 0); lia. Qed.

(** C1.  With fragments and entry offsets that agree (basket [i] holds the
    entries from offset [i] up to offset [i+1], the first offset being 0),
    for every [start] and [stop], negative ones included, [final_array] at
    the normalised bounds is the concatenation of all fragments sliced to
    [[normalize start, normalize stop)]; so [array start stop] is
    [array 0 total] sliced to that range; and whenever the requested range
    is empty or lies outside the entries, [final_array] gives the empty
    array. *)
Theorem final_array_stitches basket_arrays (entry_offsets : list Z) (start stop : Z) :
  consistent basket_arrays entry_offsets ->
  head entry_offsets = Some 0 ->
  let total := List.last entry_offsets 0 in
  let a := normalize total start in
  let b := normalize total stop in
  final_array basket_arrays a b entry_offsets = py_slice (concat basket_arrays) a b
  /\ array basket_arrays entry_offsets start stop
     = py_slice (array basket_arrays entry_offsets 0 total) a b
  /\ (forall entry_start entry_stop,
        entry_stop <= entry_start \/ total <= entry_start \/ entry_stop <= 0 ->
        final_array basket_arrays entry_start entry_stop entry_offsets = []).
Proof.
  intros Hc Hhead total a b.
  destruct entry_offsets as [| lo offsets]; [done |].
  injection Hhead as ->.
  pose proof (consistent_total _ _ _ Hc) as Htotal. fold total in Htotal.
  rewrite Z.add_0_l in Htotal.
  assert (Hslice : forall s e,
    final_array basket_arrays s e (0 :: offsets) = py_slice (concat basket_arrays) s e).
  { intros s e. rewrite (final_array_py_slice _ _ _ _ _ Hc). by rewrite !Z.sub_0_r. }
  split; [apply Hslice |]. split.
  - unfold array. fold total. fold a. fold b. rewrite !Hslice.
    assert (Hn0 : normalize total 0 = 0) by (unfold normalize; simpl; lia).
    assert (Hnt : normalize total total = total).
    { unfold normalize. destruct (total <? 0) eqn:E; lia. }
    rewrite Hn0, Hnt, Htotal. by rewrite py_slice_all.
  - intros s e Hrange. rewrite Hslice.
    destruct Hrange as [He | [Hs | He]].
    + by apply py_slice_empty.
    + apply py_slice_past_end. lia.
    + unfold py_slice. replace (Z.to_nat e) with 0%nat by lia. done.
Qed.

End StitchFacts.

(** The assertions of [test_stitching_arrays] hold of the model. *)
Example test_stitching_arrays_passes : Stitch.test_stitching_arrays = true.
Proof. vm_compute. reflexivity. Qed.

Lemma final_array_stitches_witness :
  let total := List.last Stitch.test_entry_offsets 0 in
  Stitch.final_array Stitch.test_basket_arrays
    (Stitch.normalize total 3) (Stitch.normalize total (-5)) Stitch.test_entry_offsets
  = Stitch.py_slice (concat Stitch.test_basket_arrays)
      (Stitch.normalize total 3) (Stitch.normalize total (-5)).
Proof.
  refine (proj1 (final_array_stitches Stitch.test_basket_arrays
                   Stitch.test_entry_offsets 3 (-5) _ _)).
  - simpl. repeat split; reflexivity.
  - reflexivity.
Defined.

(** The assertion of [test_branch_array_1]: the whole branch. *)
Example test_branch_array_1_passes :
  Stitch.array Stitch.i4_baskets Stitch.i4_entry_offsets 0 30
  = concat Stitch.i4_baskets.
Proof. vm_compute. reflexivity. Qed.

(** With the boundaries as the example states them ([..., 28, 29], 29
    entries), [-5] normalises to 24 and the array stops at the value 8: the
    22 expected values are not what comes out. *)
Lemma array_3_m5_boundaries_as_stated :
  Stitch.normalize (List.last Stitch.i4_entry_offsets_as_stated 0) (-5) = 24
  /\ Stitch.array Stitch.i4_baskets Stitch.i4_entry_offsets_as_stated 3 (-5)
     = [-12; -11; -10; -9; -8; -7; -6; -5; -4; -3; -2; -1; 0; 1; 2; 3; 4; 5; 6; 7; 8]
  /\ Stitch.array Stitch.i4_baskets Stitch.i4_entry_offsets_as_stated 3 (-5)
     <> Stitch.i4_expected_3_m5.
Proof. vm_compute. repeat split; discriminate. Qed.

(** C2 (amended).  The branch of [test_any_basket] holds the 30 values
    -15..14 in five baskets with boundaries 0, 7, 14, 21, 28, 30;
    [array(dtype, 3, -5)] normalises [-5] against these 30 entries to 25 and
    equals the 22 values -12, ..., 9 of [test_branch_array_2], which span the
    basket boundaries at 7, 14 and 21. *)
Theorem array_3_m5_is_22_values :
  Stitch.consistent Stitch.i4_baskets Stitch.i4_entry_offsets
  /\ List.last Stitch.i4_entry_offsets 0 = 30
  /\ Stitch.normalize 30 3 = 3
  /\ Stitch.normalize 30 (-5) = 25
  /\ Stitch.array Stitch.i4_baskets Stitch.i4_entry_offsets 3 (-5)
     = Stitch.i4_expected_3_m5
  /\ length Stitch.i4_expected_3_m5 = 22%nat
  /\ Stitch.i4_expected_3_m5 = Stitch.py_slice (concat Stitch.i4_baskets) 3 25.
Proof. vm_compute. repeat split; reflexivity. Qed.

(** ** Cache keys *)

Lemma append_assoc (s1 s2 s3 : string) : (s1 +:+ s2) +:+ s3 = s1 +:+ s2 +:+ s3.
Proof.
  induction s1 as [| c s1 IH]; [reflexivity |].
  change (String c ((s1 +:+ s2) +:+ s3) = String c (s1 +:+ s2 +:+ s3)).
  by rewrite IH.
Qed.

Lemma key_for_grammar (r : CacheKey.request) :
  CacheKey.key_for r = CacheKey.documented_grammar r.
Proof.
  unfold CacheKey.key_for, CacheKey.branch_cache_key, CacheKey.object_cache_key,
    CacheKey.file_cache_key, CacheKey.documented_grammar.
  cbn [String.concat]. rewrite !append_assoc. reflexivity.
Qed.

(** The keys that [test_cache] reads off the file, the tree and the branch. *)
Example test_cache_prefix_keys :
  CacheKey.file_cache_key "db4be408-93ad-11ea-9027-d201a8c0beef" "/"
  = "db4be408-93ad-11ea-9027-d201a8c0beef:/"
  /\ CacheKey.object_cache_key "db4be408-93ad-11ea-9027-d201a8c0beef" "/sample" 1
     = "db4be408-93ad-11ea-9027-d201a8c0beef:/sample;1"
  /\ CacheKey.branch_cache_key "db4be408-93ad-11ea-9027-d201a8c0beef" "/sample" 1 "i4" 16
     = "db4be408-93ad-11ea-9027-d201a8c0beef:/sample;1:i4(16)".
Proof. vm_compute. repeat split; reflexivity. Qed.

(** *** Reading a key back *)

Lemma append_cons (a : ascii) (s1 s2 : string) :
  String a s1 +:+ s2 = String a (s1 +:+ s2).
Proof. reflexivity. Qed.

Lemma contains_app (c : ascii) (s1 s2 : string) :
  KeyReader.contains c (s1 +:+ s2) = KeyReader.contains c s1 || KeyReader.contains c s2.
Proof.
  induction s1 as [| a s1 IH]; [reflexivity |].
  rewrite append_cons. cbn [KeyReader.contains]. by rewrite IH, orb_assoc.
Qed.

Lemma split_first_app (c : ascii) (s1 s2 : string) :
  KeyReader.contains c s1 = false ->
  KeyReader.split_first c (s1 +:+ String c s2) = Some (s1, s2).
Proof.
  induction s1 as [| a s1 IH]; intros Hc.
  - change (EmptyString +:+ String c s2) with (String c s2).
    cbn [KeyReader.split_first]. by rewrite Ascii.eqb_refl.
  - rewrite append_cons. cbn [KeyReader.contains] in Hc.
    apply orb_false_iff in Hc as [Ha Hc].
    cbn [KeyReader.split_first]. by rewrite Ha, (IH Hc).
Qed.

Lemma split_last_none (c : ascii) (s : string) :
  KeyReader.contains c s = false -> KeyReader.split_last c s = None.
Proof.
  induction s as [| a s IH]; [done |]. cbn [KeyReader.contains].
  intros Hc. apply orb_false_iff in Hc as [Ha Hc].
  cbn [KeyReader.split_last]. by rewrite (IH Hc), Ha.
Qed.

Lemma split_last_app (c : ascii) (s1 s2 : string) :
  KeyReader.contains c s2 = false ->
  KeyReader.split_last c (s1 +:+ String c s2) = Some (s1, s2).
Proof.
  intros Hc. induction s1 as [| a s1 IH].
  - change (EmptyString +:+ String c s2) with (String c s2).
    cbn [KeyReader.split_last]. by rewrite (split_last_none c s2 Hc), Ascii.eqb_refl.
  - rewrite append_cons. cbn [KeyReader.split_last]. by rewrite IH.
Qed.

(** A decimal numeral holds digits only. *)
Lemma uint_digits (c : ascii) (d : Decimal.uint) :
  uint_of_char c (Some Decimal.Nil) = None ->
  KeyReader.contains c (NilEmpty.string_of_uint d) = false.
Proof.
  intros Hc.
  induction d as [| d IH | d IH | d IH | d IH | d IH | d IH | d IH | d IH | d IH | d IH];
    [done | ..]; cbn [NilEmpty.string_of_uint KeyReader.contains]; rewrite IH, orb_false_r;
    (case Ascii.eqb_spec; [intros <-; discriminate Hc | done]).
Qed.

Lemma str_of_int_digits (c : ascii) (n : Z) :
  uint_of_char c (Some Decimal.Nil) = None ->
  (c = "-"%char -> 0 <= n) ->
  KeyReader.contains c (CacheKey.str_of_int n) = false.
Proof.
  intros Hc Hsign. unfold CacheKey.str_of_int.
  assert (forall d, KeyReader.contains c (NilZero.string_of_uint d) = false) as Hu.
  { intros d. destruct d; try (by apply (uint_digits c)).
    cbn [NilZero.string_of_uint KeyReader.contains]. rewrite orb_false_r.
    case Ascii.eqb_spec; [intros <-; discriminate Hc | done]. }
  destruct n as [| q | q]; cbn [Z.to_int NilZero.string_of_int]; try apply Hu.
  cbn [KeyReader.contains]. rewrite Hu, orb_false_r.
  case Ascii.eqb_spec; [| done]. intros Heq. symmetry in Heq.
  specialize (Hsign Heq). lia.
Qed.

Lemma int_of_str_of_int (n : Z) :
  KeyReader.int_of_str (CacheKey.str_of_int n) = Some n.
Proof.
  unfold KeyReader.int_of_str, CacheKey.str_of_int.
  rewrite NilZero.isi.
  - simpl. by rewrite DecimalZ.of_to.
  - destruct n as [| q | q]; cbn [Z.to_int]; try done.
    intros [= Hq]. by apply (DecimalPos.Unsigned.to_uint_nonnil q).
  - destruct n as [| q | q]; cbn [Z.to_int]; try done.
    intros [= Hq]. by apply (DecimalPos.Unsigned.to_uint_nonnil q).
Qed.

(** The key, written with one separator after the other. *)
Lemma key_for_flat (r : CacheKey.request) :
  CacheKey.key_for r
  = CacheKey.file_uuid r +:+ String ":"
      (CacheKey.object_path r +:+ String ";"
         (CacheKey.str_of_int (CacheKey.cycle r) +:+ String ":"
            (CacheKey.branch_name r +:+ String "("
               (CacheKey.str_of_int (CacheKey.type_id r) +:+ String ")"
                  (EmptyString +:+ String ":"
                     (((CacheKey.interpretation_signature r +:+ String ":"
                          (CacheKey.str_of_int (CacheKey.entry_start r) +:+ String "-"
                             (CacheKey.str_of_int (CacheKey.entry_stop r))))
                       +:+ String ":" (CacheKey.library_tag r)))))))).
Proof.
  unfold CacheKey.key_for, CacheKey.branch_cache_key, CacheKey.object_cache_key,
    CacheKey.file_cache_key.
  repeat (rewrite append_assoc || rewrite append_cons). reflexivity.
Qed.

(** The reader gives back every parameter of the request from its key. *)
Lemma read_key_key_for (r : CacheKey.request) :
  KeyReader.well_formed r -> KeyReader.read_key (CacheKey.key_for r) = Some r.
Proof.
  intros (Huuid & Hpath & Hname & Htag & Hstart).
  rewrite key_for_flat. unfold KeyReader.read_key.
  rewrite (split_first_app ":" _ _ Huuid). cbn [mbind option_bind].
  rewrite (split_first_app ";" _ _ Hpath). cbn [mbind option_bind].
  rewrite (split_first_app ":" (CacheKey.str_of_int (CacheKey.cycle r)))
    by (by apply str_of_int_digits).
  cbn [mbind option_bind].
  rewrite (split_first_app "(" _ _ Hname). cbn [mbind option_bind].
  rewrite (split_first_app ")" (CacheKey.str_of_int (CacheKey.type_id r)))
    by (by apply str_of_int_digits).
  cbn [mbind option_bind].
  rewrite (split_first_app ":" EmptyString) by done. cbn [mbind option_bind].
  rewrite (split_last_app ":" _ _ Htag). cbn [mbind option_bind].
  rewrite (split_last_app ":" (CacheKey.interpretation_signature r)).
  2:{ change (String "-" ?s) with (String "-" EmptyString +:+ s).
      rewrite !contains_app.
      rewrite !(str_of_int_digits ":") by done. done. }
  cbn [mbind option_bind].
  rewrite (split_first_app "-" (CacheKey.str_of_int (CacheKey.entry_start r)))
    by (by apply str_of_int_digits).
  cbn [mbind option_bind].
  rewrite !int_of_str_of_int. cbn [mbind option_bind].
  rewrite decide_True by done. by destruct r.
Qed.

(** The shorter keys of a file, an object and a branch are not keys of an
    array request. *)
Example read_key_rejects_prefix_keys :
  KeyReader.read_key "db4be408-93ad-11ea-9027-d201a8c0beef:/" = None
  /\ KeyReader.read_key "db4be408-93ad-11ea-9027-d201a8c0beef:/sample;1" = None
  /\ KeyReader.read_key "db4be408-93ad-11ea-9027-d201a8c0beef:/sample;1:i4(16)" = None
  /\ KeyReader.read_key
       "db4be408-93ad-11ea-9027-d201a8c0beef:/sample;1:i4(16):AsDtype(Bi4(),Li4()):0-x:np"
     = None.
Proof. vm_compute. repeat split; reflexivity. Qed.

(** The signature of a grouped interpretation depends on the name of the
    group's branch and, in order, on the names of the subbranches and the
    signatures of their interpretations, and on nothing else. *)
Lemma cache_key_congruence (repr : string -> string)
    (b b' : Grouped.TBranch) (subs subs' : list (string * Grouped.Interpretation))
    (t t' : option string) :
  Grouped.name b = Grouped.name b' ->
  Forall2 (fun xy xy' => repr xy.1 = repr xy'.1
                         /\ Grouped.cache_key repr xy.2 = Grouped.cache_key repr xy'.2)
    subs subs' ->
  Grouped.cache_key repr (Grouped.AsGrouped b subs t)
  = Grouped.cache_key repr (Grouped.AsGrouped b' subs' t').
Proof.
  intros Hname Hsubs. cbn [Grouped.cache_key]. rewrite Hname.
  assert (map (fun xy => repr xy.1 +:+ ":" +:+ Grouped.cache_key repr xy.2) subs
          = map (fun xy => repr xy.1 +:+ ":" +:+ Grouped.cache_key repr xy.2) subs')
    as ->; [| done].
  induction Hsubs as [| xy xy' rest rest' [Hx Hy] _ IH]; [done |].
  cbn [map]. by rewrite Hx, Hy, IH.
Qed.

(** C8.  The key of an array request is a function of the request's
    parameters (identical parameters give identical keys), and it is the
    string
    [<file-uuid>:<object-path>;<cycle>:<branch-name>(<type-id>):<interpretation-signature>:<entry_start>-<entry_stop>:<output-library-tag>]:
    read by the grammar, field by field, the key of a request whose fields do
    not contain their own separators gives back exactly the request's
    parameters, so that two such requests have the same key only when their
    parameters are identical.  A branch named [i4] with number 16 contributes
    the segment [i4(16)], and the request of [test_cache] has the key the
    test expects.  The signature that [AsGrouped.cache_key] computes for a
    grouped interpretation, [AsGrouped(<name>,[<repr>:<signature>,...])], is
    read back from the key unchanged although it contains colons, and it is
    the same for two grouped interpretations that agree on the branch name
    and, in order, on subbranch names and signatures. *)
Theorem key_for_deterministic_and_grammatical (r1 r2 : CacheKey.request) :
  (r1 = r2 -> CacheKey.key_for r1 = CacheKey.key_for r2)
  /\ CacheKey.key_for r1 = CacheKey.documented_grammar r1
  /\ (KeyReader.well_formed r1 ->
        KeyReader.read_key (CacheKey.key_for r1) = Some r1)
  /\ (KeyReader.well_formed r1 -> KeyReader.well_formed r2 ->
        CacheKey.key_for r1 = CacheKey.key_for r2 -> r1 = r2)
  /\ (CacheKey.branch_name r1 = "i4" -> CacheKey.type_id r1 = 16 ->
        CacheKey.key_for r1
        = CacheKey.object_cache_key (CacheKey.file_uuid r1) (CacheKey.object_path r1)
            (CacheKey.cycle r1)
          +:+ ":" +:+ "i4(16)" +:+ ":" +:+ CacheKey.interpretation_signature r1
          +:+ ":" +:+ CacheKey.str_of_int (CacheKey.entry_start r1)
          +:+ "-" +:+ CacheKey.str_of_int (CacheKey.entry_stop r1)
          +:+ ":" +:+ CacheKey.library_tag r1)
  /\ CacheKey.key_for CacheKey.test_cache_request
     = "db4be408-93ad-11ea-9027-d201a8c0beef:/sample;1:i4(16):AsDtype(Bi4(),Li4()):0-30:np"
  /\ (forall repr branch subbranches typename,
        KeyReader.well_formed r1 ->
        CacheKey.interpretation_signature r1
        = Grouped.cache_key repr (Grouped.AsGrouped branch subbranches typename) ->
        CacheKey.interpretation_signature <$> KeyReader.read_key (CacheKey.key_for r1)
        = Some ("AsGrouped(" +:+ Grouped.name branch +:+ ",["
                  +:+ String.concat ","
                        (map (fun xy => repr xy.1 +:+ ":" +:+ Grouped.cache_key repr xy.2)
                           subbranches)
                  +:+ "])"))
  /\ (forall repr b b' subs subs' t t',
        Grouped.name b = Grouped.name b' ->
        Forall2 (fun xy xy' => repr xy.1 = repr xy'.1
                               /\ Grouped.cache_key repr xy.2 = Grouped.cache_key repr xy'.2)
          subs subs' ->
        Grouped.cache_key repr (Grouped.AsGrouped b subs t)
        = Grouped.cache_key repr (Grouped.AsGrouped b' subs' t')).
Proof.
  split; [by intros -> |].
  split; [apply key_for_grammar |].
  split; [by apply read_key_key_for |].
  split.
  { intros Hr1 Hr2 Hkey.
    pose proof (read_key_key_for r1 Hr1) as H1.
    rewrite Hkey, (read_key_key_for r2 Hr2) in H1. by injection H1. }
  split.
  { intros Hname Htype. unfold CacheKey.key_for, CacheKey.branch_cache_key.
    rewrite Hname, Htype. rewrite !append_assoc. reflexivity. }
  split; [by vm_compute |].
  split.
  { intros repr branch subbranches typename Hr1 Hsig.
    rewrite (read_key_key_for r1 Hr1). cbn [fmap option_fmap option_map].
    by rewrite Hsig. }
  intros repr b b' subs subs' t t'. apply cache_key_congruence.
Qed.

(** A request for a group branch: the signature is the one that
    [AsGrouped.cache_key] computes for two subbranches. *)
Lemma key_for_deterministic_and_grammatical_witness :
  KeyReader.read_key
    "db4be408-93ad-11ea-9027-d201a8c0beef:/sample;1:i4(16):AsDtype(Bi4(),Li4()):0-30:np"
  = Some CacheKey.test_cache_request
  /\ CacheKey.interpretation_signature
     <$> KeyReader.read_key
           "uuid:/events;1:Muon(5):AsGrouped(Muon,['pt':AsDtype('>f4'),'eta':AsDtype('>f4')]):0-10:ak"
     = Some "AsGrouped(Muon,['pt':AsDtype('>f4'),'eta':AsDtype('>f4')])".
Proof.
  assert (KeyReader.well_formed CacheKey.test_cache_request) as Hwf
    by (repeat split; (reflexivity || (simpl; lia))).
  destruct (key_for_deterministic_and_grammatical
              CacheKey.test_cache_request CacheKey.test_cache_request)
    as (_ & _ & Hread & _ & _ & Hkey & _).
  specialize (Hread Hwf). rewrite Hkey in Hread.
  split; [exact Hread |].
  pose (group :=
          {| CacheKey.file_uuid := "uuid"; CacheKey.object_path := "/events";
             CacheKey.cycle := 1; CacheKey.branch_name := "Muon"; CacheKey.type_id := 5;
             CacheKey.interpretation_signature :=
               Grouped.cache_key Grouped.repr_plain
                 (Grouped.AsGrouped
                    {| Grouped.name := "Muon"; Grouped.file_path := "events.root";
                       Grouped.object_path := "/events" |}
                    [("pt", Grouped.Other "AsDtype('>f4')" "float");
                     ("eta", Grouped.Other "AsDtype('>f4')" "float")] None);
             CacheKey.entry_start := 0; CacheKey.entry_stop := 10;
             CacheKey.library_tag := "ak" |}).
  assert (KeyReader.well_formed group) as Hgroup
    by (repeat split; (reflexivity || (simpl; lia))).
  destruct (key_for_deterministic_and_grammatical group group)
    as (_ & _ & _ & _ & _ & _ & Hgrouped & _).
  exact (Hgrouped Grouped.repr_plain
           {| Grouped.name := "Muon"; Grouped.file_path := "events.root";
              Grouped.object_path := "/events" |}
           [("pt", Grouped.Other "AsDtype('>f4')" "float");
            ("eta", Grouped.Other "AsDtype('>f4')" "float")] None Hgroup eq_refl).
Defined.

(** ** The grouped interpretation *)

(** The grouped interpretation's signature, as it enters a cache key. *)
Example AsGrouped_cache_key_example :
  Grouped.cache_key Grouped.repr_plain
    (Grouped.AsGrouped
       {| Grouped.name := "evt"; Grouped.file_path := "f.root"; Grouped.object_path := "/t" |}
       [("x", Grouped.Other "AsDtype(Bi4(),Li4())" "int32_t");
        ("y", Grouped.Other "AsDtype(Bf8(),Lf8())" "double")]
       None)
  = "AsGrouped(evt,['x':AsDtype(Bi4(),Li4()),'y':AsDtype(Bf8(),Lf8())])".
Proof. vm_compute. reflexivity. Qed.

(** C9.  Whatever they are given, [basket_array] and [final_array] of
    [AsGrouped] raise a [ValueError] whose message says that the grouping
    branch should not be read directly and lists the subbranches to read
    instead; neither returns a value. *)
Theorem AsGrouped_refuses_decoding
    {D O B C L F R : Type} (repr : string -> string)
    (self_branch : Grouped.TBranch)
    (self_subbranches : list (string * Grouped.Interpretation))
    (data : D) (byte_offsets : O) (basket : B) (branch : Grouped.TBranch)
    (context : C) (cursor_offset : Z) (library : L)
    (basket_arrays : list F) (entry_start entry_stop : Z) (entry_offsets : list Z) :
  let message := Grouped.read_subbranches_message repr self_branch self_subbranches in
  Grouped.basket_array (R := R) repr self_branch self_subbranches
    data byte_offsets basket branch context cursor_offset library
  = Raises (ValueError message)
  /\ Grouped.final_array (R := R) repr self_branch self_subbranches
       basket_arrays entry_start entry_stop entry_offsets library branch
     = Raises (ValueError message)
  /\ (forall v : R,
        Grouped.basket_array repr self_branch self_subbranches
          data byte_offsets basket branch context cursor_offset library
        <> Returns v)
  /\ (forall v : R,
        Grouped.final_array repr self_branch self_subbranches
          basket_arrays entry_start entry_stop entry_offsets library branch
        <> Returns v)
  /\ (exists before after,
        message
        = before
            +:+ " should not be read directly; instead read the subbranches:"
            +:+ Grouped.newline +:+ Grouped.newline +:+ "    "
            +:+ String.concat ", " (map (fun xy => repr xy.1) self_subbranches)
            +:+ after).
Proof.
  intros message.
  split; [reflexivity |]. split; [reflexivity |].
  split; [intros v; discriminate |]. split; [intros v; discriminate |].
  exists ("grouping branches like " +:+ repr (Grouped.name self_branch)).
  eexists. subst message. unfold Grouped.read_subbranches_message.
  rewrite !append_assoc. reflexivity.
Qed.

(** ** Futures *)

(** *** Steps and what they keep *)

Lemma evolves_refl w : evolves w w.
Proof. by repeat split. Qed.

Lemma evolves_trans w1 w2 w3 : evolves w1 w2 -> evolves w2 w3 -> evolves w1 w3.
Proof.
  intros (Ha & Hf & Hr) (Ha' & Hf' & Hr'). repeat split; [auto | congruence | auto].
Qed.

Lemma Forall2_evolves_refl (ws : list worker) : Forall2 evolves ws ws.
Proof. induction ws; constructor; auto using evolves_refl. Qed.

(** A property that [evolves] keeps carries over to every worker. *)
Lemma Forall_evolves (P : worker -> Prop) (ws ws' : list worker) :
  (forall w w', evolves w w' -> P w -> P w') ->
  Forall2 evolves ws ws' -> Forall P ws -> Forall P ws'.
Proof.
  intros HP H2. induction H2 as [| w w' ws ws' Hw _ IH]; [done |].
  intros Hall. apply Forall_cons in Hall as [Hw0 Hrest].
  constructor; [by eapply HP | by apply IH].
Qed.

Lemma alter_evolves (f : worker -> worker) (i : nat) (ws : list worker) :
  (forall w, ws !! i = Some w -> evolves w (f w)) ->
  Forall2 evolves ws (alter f i ws).
Proof.
  revert i. induction ws as [| w ws IH]; intros i Hf; [constructor |].
  destruct i as [| i]; simpl.
  - constructor; [by apply Hf | apply Forall2_evolves_refl].
  - constructor; [apply evolves_refl | apply IH; intros w' Hw'; by apply Hf].
Qed.

(** Changing the state of a thread that is alive. *)
Lemma set_thread_evolves (i : nat) (st : thread) (p : pool) (w : worker) :
  _workers p !! i = Some w -> is_alive w = true ->
  Forall2 evolves (_workers p) (_workers (set_thread i st p)).
Proof.
  intros Hw Halive. simpl. apply alter_evolves. intros w' Hw'.
  assert (w' = w) as -> by congruence.
  repeat split; simpl; [congruence | auto].
Qed.

Lemma release_evolves (k : nat) (p : pool) :
  Forall2 evolves (_workers p) (_workers (release k p)).
Proof.
  simpl. apply alter_evolves. intros w _.
  repeat split; simpl; [auto | by destruct (_resource w) | by destruct (_resource w)].
Qed.

Lemma worker_step_evolves (i : nat) (p p' : pool) :
  worker_step i p = Some p' ->
  Forall2 evolves (_workers p) (_workers p')
  /\ _closed p' = _closed p /\ length (heap p) = length (heap p').
Proof.
  unfold worker_step. intros Hstep.
  destruct (_workers p !! i) as [w |] eqn:Hw; [| done]. simpl in Hstep.
  destruct (state w) as [| fid |] eqn:Hst; [| | done].
  - assert (is_alive w = true) as Halive by (unfold is_alive; by rewrite Hst).
    destruct (_work_queue p) as [| [fid |] q]; [done | |];
      injection Hstep as <-; (split; [| done]);
      by apply (set_thread_evolves i _ (set_queue q p) w).
  - assert (is_alive w = true) as Halive by (unfold is_alive; by rewrite Hst).
    destruct (heap p !! fid) as [obj |] eqn:Hobj; [| done]. simpl in Hstep.
    destruct (_resource w) as [r |], obj as [f | f].
    + injection Hstep as <-. split; [| done].
      by apply (set_thread_evolves i _ p w).
    + destruct (ResourceFuture._run f r) as [[f' evs] out].
      injection Hstep as <-. split; [| split; [done |]].
      * by apply (set_thread_evolves i _ (emit evs (set_future fid (AResourceFuture f') p)) w).
      * simpl. by rewrite length_insert.
    + destruct (Future._run f) as [f' out].
      injection Hstep as <-. split; [| split; [done |]].
      * by apply (set_thread_evolves i _ (set_future fid (AFuture f') p) w).
      * simpl. by rewrite length_insert.
    + injection Hstep as <-. split; [| done].
      by apply (set_thread_evolves i _ p w).
Qed.

(** A step of the client thread changes the workers and the flag only in
    [__exit__], at [ExitResource]. *)
Lemma main_step_evolves (at_ at' : pc) (p p' : pool) :
  main_step at_ p = Some (at', p') ->
  Forall2 evolves (_workers p) (_workers p')
  /\ ((_workers p' = _workers p /\ _closed p' = _closed p)
      \/ exists k, at_ = ExitResource k).
Proof.
  intros Hstep. destruct at_ as [| c i | c j | c | [|] | k |]; simpl in Hstep.
  - done.
  - destruct (_workers p !! i) as [w |]; [destruct (is_alive w) |];
      injection Hstep as <- <-; (split; [apply Forall2_evolves_refl | by left]).
  - destruct (_workers p !! j) as [w |]; [destruct (is_alive w) |];
      injection Hstep as <- <-; (split; [apply Forall2_evolves_refl | by left]).
  - injection Hstep as <- <-. split; [apply Forall2_evolves_refl | by left].
  - injection Hstep as <- <-. split; [apply Forall2_evolves_refl | by left].
  - injection Hstep as <- <-. split; [apply Forall2_evolves_refl | by left].
  - split; [| right; by exists k].
    destruct (_workers p !! k) as [w |]; [destruct (_resource w) |];
      injection Hstep as <- <-;
      [apply release_evolves | apply Forall2_evolves_refl ..].
  - injection Hstep as <- <-. split; [apply Forall2_evolves_refl | by left].
Qed.

(** What a client's call or a worker's step (anything but a step of the
    thread inside [shutdown] / [__exit__]) keeps. *)
Lemma perform_client (a : action) (at_ at' : pc) (p p' : pool) :
  a <> MainStep ->
  perform a (at_, p) = Some (at', p') ->
  Forall2 evolves (_workers p) (_workers p')
  /\ _closed p' = _closed p
  /\ (at' = at_ \/ (at_ = Ready /\ exists c, at' = ForWorker c 0)).
Proof.
  intros Hmain Hstep. destruct a as [i | | | | task args | task | fid | fid cb | fid e];
    simpl in Hstep.
  - destruct (worker_step i p) as [p1 |] eqn:Hw; [| done].
    injection Hstep as <- <-.
    destruct (worker_step_evolves _ _ _ Hw) as (Hev & Hcl & _). auto.
  - done.
  - destruct at_; try done. injection Hstep as <- <-.
    split; [apply Forall2_evolves_refl |]. split; [done |]. right. eauto.
  - destruct at_; try done. injection Hstep as <- <-.
    split; [apply Forall2_evolves_refl |]. split; [done |]. right. eauto.
  - injection Hstep as <- <-. split; [apply Forall2_evolves_refl |]. auto.
  - injection Hstep as <- <-. split; [apply Forall2_evolves_refl |]. auto.
  - injection Hstep as <- <-. unfold ResourceThreadPoolExecutor.submit.
    destruct (heap p !! fid) as [[f | f] |];
      [| destruct (ResourceThreadPoolExecutor.closed p);
         [destruct (ResourceThreadPoolExecutor.first_file_path p) |] |];
      (split; [apply Forall2_evolves_refl |]); auto.
  - destruct (heap p !! fid) as [[f | f] |]; try done.
    injection Hstep as <- <-. split; [apply Forall2_evolves_refl |]. auto.
  - destruct (heap p !! fid) as [[f | f] |]; try done.
    destruct (ResourceFuture._set_excinfo f e) as [f' evs].
    injection Hstep as <- <-. split; [apply Forall2_evolves_refl |]. auto.
Qed.

Lemma perform_evolves (a : action) (s s' : pc * pool) :
  perform a s = Some s' -> Forall2 evolves (_workers s.2) (_workers s'.2).
Proof.
  destruct s as [at_ p], s' as [at' p']. intros Hstep.
  destruct (decide (a = MainStep)) as [-> | Hne].
  - by apply (main_step_evolves at_ at').
  - by apply (perform_client a at_ at' p p' Hne).
Qed.

Lemma terminated_stable (w w' : worker) :
  evolves w w' -> is_alive w = false -> is_alive w' = false.
Proof. intros (H & _ & _). exact H. Qed.

Lemma released_stable (w w' : worker) :
  evolves w w' ->
  is_open <$> _resource w = Some false -> is_open <$> _resource w' = Some false.
Proof. intros (_ & _ & H). exact H. Qed.

Lemma Forall_take_evolves (P : worker -> Prop) (j : nat) (ws ws' : list worker) :
  (forall w w', evolves w w' -> P w -> P w') ->
  Forall2 evolves ws ws' -> Forall P (take j ws) -> Forall P (take j ws').
Proof.
  intros HP H2. apply Forall_evolves; [done |]. by apply Forall2_take.
Qed.

Lemma all_terminated_evolves (p p' : pool) :
  Forall2 evolves (_workers p) (_workers p') -> all_terminated p -> all_terminated p'.
Proof. apply Forall_evolves, terminated_stable. Qed.

Lemma all_released_evolves (p p' : pool) :
  Forall2 evolves (_workers p) (_workers p') -> all_released p -> all_released p'.
Proof. apply Forall_evolves, released_stable. Qed.

(** The loop over the workers is through when the index is past the list. *)
Lemma Forall_take_all (P : worker -> Prop) (j : nat) (ws : list worker) :
  ws !! j = None -> Forall P (take j ws) -> Forall P ws.
Proof. intros Hj%lookup_ge_None. by rewrite take_ge. Qed.

Lemma Forall_take_S (P : worker -> Prop) (j : nat) (ws : list worker) (w : worker) :
  ws !! j = Some w -> Forall P (take j ws) -> P w -> Forall P (take (S j) ws).
Proof.
  intros Hj Hbefore Hw. rewrite (take_S_r _ _ _ Hj). apply Forall_app. auto.
Qed.

(** *** The invariant of [shutdown] and [__exit__] *)

Lemma shutdown_invariant_client (a : action) (s s' : pc * pool) :
  a <> MainStep -> perform a s = Some s' ->
  shutdown_invariant s -> shutdown_invariant s'.
Proof.
  destruct s as [at_ p], s' as [at' p']. intros Hne Hstep [Hpc Hclosed].
  destruct (perform_client a at_ at' p p' Hne Hstep) as (Hev & Hcl & Hat).
  unfold shutdown_invariant in *. simpl in *. split.
  - destruct Hat as [-> | [-> [c ->]]]; [| done].
    destruct at_ as [| c i | c j | c | c | k |]; try done.
    + revert Hpc. by apply Forall_take_evolves; [apply terminated_stable |].
    + by apply (all_terminated_evolves p).
    + destruct Hpc as [Hterm Hrel]. split; [by apply (all_terminated_evolves p) |].
      revert Hrel. by apply Forall_take_evolves; [apply released_stable |].
    + destruct Hpc as (Hterm & Hrel & Hc).
      split; [by apply (all_terminated_evolves p) |].
      split; [by apply (all_released_evolves p) | congruence].
  - rewrite Hcl. intros Hc. destruct (Hclosed Hc) as [Hterm Hrel].
    split; [by apply (all_terminated_evolves p) | by apply (all_released_evolves p)].
Qed.

Lemma shutdown_invariant_main (s s' : pc * pool) :
  perform MainStep s = Some s' ->
  shutdown_invariant s -> shutdown_invariant s'.
Proof.
  destruct s as [at_ p], s' as [at' p']. simpl. intros Hstep [Hpc Hclosed].
  unfold shutdown_invariant in *. simpl in *.
  destruct at_ as [| c i | c j | c | [|] | k |]; simpl in Hstep.
  - done.
  - destruct (_workers p !! i) as [w |]; [destruct (is_alive w) |];
      injection Hstep as <- <-; simpl; (split; [done || by constructor | done]).
  - destruct (_workers p !! j) as [w |] eqn:Hw; [destruct (is_alive w) eqn:Halive |];
      injection Hstep as <- <-; simpl; (split; [| done]).
    + done.
    + by apply (Forall_take_S _ _ _ w).
    + by apply (Forall_take_all _ j).
  - by injection Hstep as <- <-.
  - by injection Hstep as <- <-.
  - injection Hstep as <- <-. simpl. split; [| done]. split; [done | by constructor].
  - destruct Hpc as [Hterm Hrel].
    destruct (_workers p !! k) as [w |] eqn:Hw; [destruct (_resource w) as [r |] eqn:Hr |];
      injection Hstep as <- <-; simpl.
    + pose proof (release_evolves k p) as Hev. split.
      * split; [by apply (all_terminated_evolves p) |].
        unfold released_before.
        apply (Forall_take_S _ _ _
                 {| _resource := Resource_exit <$> _resource w; state := state w |}).
        -- simpl. by rewrite list_lookup_alter_eq, Hw.
        -- revert Hrel. by apply Forall_take_evolves; [apply released_stable |].
        -- simpl. by rewrite Hr.
      * intros Hc. destruct (Hclosed Hc) as [_ Hall].
        split; [by apply (all_terminated_evolves p) | by apply (all_released_evolves p)].
    + done.
    + assert (all_released p) as Hall by (by apply (Forall_take_all _ k)).
      done.
  - by injection Hstep as <- <-.
Qed.

Lemma shutdown_invariant_step (s s' : pc * pool) :
  step s s' -> shutdown_invariant s -> shutdown_invariant s'.
Proof.
  intros [a Ha]. destruct (decide (a = MainStep)) as [-> | Hne].
  - by apply shutdown_invariant_main.
  - by apply (shutdown_invariant_client a).
Qed.

Lemma shutdown_invariant_reachable (p0 : pool) (s : pc * pool) :
  _closed p0 = false -> rtc step (Ready, p0) s -> shutdown_invariant s.
Proof.
  intros Hopen. revert s. apply rtc_ind_r.
  - split; [done | simpl; congruence].
  - intros s1 s2 _ Hstep IH. by apply (shutdown_invariant_step s1).
Qed.

(** A schedule that runs is an execution. *)
Lemma run_rtc (schedule : list action) :
  forall s s', run schedule s = Some s' -> rtc step s s'.
Proof.
  induction schedule as [| a rest IH]; intros s s' Hrun; simpl in Hrun.
  - injection Hrun as <-. constructor.
  - destruct (perform a s) as [s1 |] eqn:Ha; [| done]. simpl in Hrun.
    apply rtc_l with s1; [by exists a | by apply IH].
Qed.

(** Only [__exit__], at a worker's resource or at the end of its loop, changes
    a resource or the [_closed] flag. *)
Lemma step_changes_resources (s s' : pc * pool) :
  step s s' ->
  resources s'.2 <> resources s.2 \/ _closed s'.2 <> _closed s.2 ->
  exists k, s.1 = ExitResource k.
Proof.
  destruct s as [at_ p], s' as [at' p']. intros [a Ha] Hchange. simpl in *.
  destruct (decide (a = MainStep)) as [-> | Hne].
  - destruct (main_step_evolves at_ at' p p' Ha) as [_ [[Hw Hc] | Hk]]; [| done].
    unfold resources in Hchange. rewrite Hw, Hc in Hchange. by destruct Hchange.
  - exfalso.
    assert (resources p' = resources p /\ _closed p' = _closed p) as [Hr Hc];
      [| by destruct Hchange].
    destruct (perform_client a at_ at' p p' Hne Ha) as (_ & Hcl & _).
    split; [| done]. unfold resources.
    destruct a as [i | | | | task args | task | fid | fid cb | fid e]; simpl in Ha.
    + destruct (worker_step i p) as [p1 |] eqn:Hws; [| done].
      injection Ha as <- <-. unfold worker_step in Hws.
      destruct (_workers p !! i) as [w |]; [| done]. simpl in Hws.
      assert (forall st q, map _resource (_workers (set_thread i st q))
                           = map _resource (_workers q)) as Hset.
      { intros st q. simpl. apply list_eq. intros n.
        rewrite !list_lookup_fmap.
        destruct (decide (i = n)) as [-> | Hin].
        - rewrite list_lookup_alter_eq. by destruct (_workers q !! n).
        - by rewrite list_lookup_alter_ne. }
      destruct (state w) as [| fid |]; [| | done].
      * destruct (_work_queue p) as [| [fid |] q]; [done | |];
          injection Hws as <-; by rewrite Hset.
      * destruct (heap p !! fid) as [obj |]; [| done]. simpl in Hws.
        destruct (_resource w) as [r |], obj as [f | f].
        -- injection Hws as <-. by rewrite Hset.
        -- destruct (ResourceFuture._run f r) as [[f' evs] out].
           injection Hws as <-. by rewrite Hset.
        -- destruct (Future._run f) as [f' out].
           injection Hws as <-. by rewrite Hset.
        -- injection Hws as <-. by rewrite Hset.
    + done.
    + destruct at_; try done. by injection Ha as <- <-.
    + destruct at_; try done. by injection Ha as <- <-.
    + by injection Ha as <- <-.
    + by injection Ha as <- <-.
    + injection Ha as <- <-. unfold ResourceThreadPoolExecutor.submit.
      destruct (heap p !! fid) as [[f | f] |];
        [| destruct (ResourceThreadPoolExecutor.closed p);
           [destruct (ResourceThreadPoolExecutor.first_file_path p) |] |]; done.
    + destruct (heap p !! fid) as [[f | f] |]; try done. by injection Ha as <- <-.
    + destruct (heap p !! fid) as [[f | f] |]; try done.
      destruct (ResourceFuture._set_excinfo f e) as [f' evs]. by injection Ha as <- <-.
Qed.

Example example_close_runs :
  run example_close_schedule (Ready, example_pool) = Some (ExitReturned, example_closed_pool).
Proof. vm_compute. reflexivity. Qed.

(** Once [shutdown] has returned to [__exit__], the rest of [__exit__] runs
    through: one step per worker, each releasing a resource, and one that
    sets the flag. *)
Lemma exit_loop_runs (d : nat) :
  forall (p : pool) (k : nat),
    Forall (fun w => is_Some (_resource w)) (_workers p) ->
    (k + d = length (_workers p))%nat ->
    exists p',
      run (replicate (S d) MainStep) (ExitResource k, p) = Some (ExitReturned, p')
      /\ _closed p' = true.
Proof.
  induction d as [| d IH]; intros p k Hres Hk.
  - assert (_workers p !! k = None) as Hnone by (apply lookup_ge_None; lia).
    exists (set_closed true p). simpl. by rewrite Hnone.
  - assert (k < length (_workers p))%nat as Hlt by lia.
    destruct (lookup_lt_is_Some_2 _ _ Hlt) as [w Hw].
    assert (is_Some (_resource w)) as [r Hr].
    { by apply (proj1 (Forall_lookup _ _) Hres k w). }
    destruct (IH (release k p) (S k)) as (p' & Hrun & Hc).
    + simpl. apply Forall_lookup. intros n w' Hw'.
      destruct (decide (k = n)) as [-> | Hne].
      * rewrite list_lookup_alter_eq, Hw in Hw'. injection Hw' as <-. simpl.
        rewrite Hr. by eexists.
      * rewrite list_lookup_alter_ne in Hw' by done.
        by apply (proj1 (Forall_lookup _ _) Hres n w').
    + simpl. rewrite length_alter. lia.
    + exists p'. split; [| done].
      change (replicate (S (S d)) MainStep) with (MainStep :: replicate (S d) MainStep).
      cbn [run perform main_step]. rewrite Hw, Hr. exact Hrun.
Qed.

(** C7.  In every execution that starts with an open pool, whatever workers
    and clients do meanwhile: [shutdown] puts a sentinel on the queue for each
    worker it finds alive, goes on sleeping and looping while it finds one
    alive, and has returned only when every worker thread has ended; when it
    has returned to [__exit__] of a pool whose workers all have a resource,
    [__exit__] goes on to release every resource and set [_closed]; a step
    that releases a resource or sets [_closed] is taken only when every worker
    thread has ended; a closed pool has all its workers ended and all its
    resources released; and when [close] is through the pool is closed. *)
Theorem close_waits_for_workers (p0 : pool) (s : pc * pool) :
  _closed p0 = false ->
  rtc step (Ready, p0) s ->
  (forall c i w, s.1 = ForWorker c i -> _workers s.2 !! i = Some w -> is_alive w = true ->
     main_step s.1 s.2 = Some (ForWorker c (S i), put None s.2))
  /\ (forall c j w, s.1 = AnyAlive c j -> _workers s.2 !! j = Some w -> is_alive w = true ->
        main_step s.1 s.2 = Some (Sleep c, s.2))
  /\ (forall c, s.1 = ShutdownReturned c -> all_terminated s.2)
  /\ (s.1 = ShutdownReturned FromExit ->
      Forall (fun w => is_Some (_resource w)) (_workers s.2) ->
      exists p',
        run (replicate (2 + length (_workers s.2)) MainStep) s = Some (ExitReturned, p')
        /\ _closed p' = true /\ all_terminated p' /\ all_released p')
  /\ (forall s', step s s' ->
        resources s'.2 <> resources s.2 \/ _closed s'.2 <> _closed s.2 ->
        all_terminated s.2)
  /\ (_closed s.2 = true -> all_terminated s.2 /\ all_released s.2)
  /\ (s.1 = ExitReturned ->
        _closed s.2 = true /\ all_terminated s.2 /\ all_released s.2).
Proof.
  intros Hopen Hreach.
  destruct (shutdown_invariant_reachable p0 s Hopen Hreach) as [Hpc Hclosed].
  destruct s as [at_ p]. simpl in *.
  split; [| split; [| split; [| split; [| split; [| split]]]]].
  - intros c i w -> Hw Halive. simpl. by rewrite Hw, Halive.
  - intros c j w -> Hw Halive. simpl. by rewrite Hw, Halive.
  - intros c ->. exact Hpc.
  - intros -> Hres.
    destruct (exit_loop_runs (length (_workers p)) p 0 Hres eq_refl) as (p' & Hrun & Hc).
    exists p'. split; [exact Hrun |]. split; [done |].
    assert (rtc step (Ready, p0) (ExitReturned, p')) as Hreach'.
    { etrans; [exact Hreach |].
      apply (run_rtc (replicate (2 + length (_workers p)) MainStep)). exact Hrun. }
    destruct (shutdown_invariant_reachable p0 _ Hopen Hreach') as [(Ht & Hr & _) _].
    done.
  - intros s' Hstep Hchange.
    destruct (step_changes_resources _ _ Hstep Hchange) as [k Hk].
    simpl in Hk. subst at_. by destruct Hpc.
  - exact Hclosed.
  - intros ->. destruct Hpc as (Hterm & Hrel & Hc). done.
Qed.

Lemma close_waits_for_workers_witness :
  _closed example_closed_pool = true
  /\ all_terminated example_closed_pool /\ all_released example_closed_pool.
Proof.
  refine (proj2 (proj2 (proj2 (proj2 (proj2 (proj2
            (close_waits_for_workers example_pool (ExitReturned, example_closed_pool)
               _ _)))))) _).
  - reflexivity.
  - apply (run_rtc example_close_schedule). vm_compute. reflexivity.
  - reflexivity.
Defined.

(** *** Building a resource pool and submitting to it *)

Lemma first_worker_on_evolves (path : string) (p p' : pool) :
  Forall2 evolves (_workers p) (_workers p') ->
  first_worker_on path p -> first_worker_on path p'.
Proof.
  intros Hev (w & r & Hw & Hr & Hpath).
  destruct (Forall2_lookup_l _ _ _ _ _ Hev Hw) as (w' & Hw' & _ & Hfile & _).
  rewrite Hr in Hfile. simpl in Hfile.
  destruct (_resource w') as [r' |] eqn:Hr'; [| done].
  exists w', r'. injection Hfile as Hfile. split; [done |]. split; [done | congruence].
Qed.

Lemma first_worker_on_reachable (path : string) (s0 s : pc * pool) :
  first_worker_on path s0.2 -> rtc step s0 s -> first_worker_on path s.2.
Proof.
  intros H0. revert s. apply rtc_ind_r; [done |].
  intros s1 s2 _ [a Ha] IH.
  apply (first_worker_on_evolves path s1.2); [| done].
  by apply (perform_evolves a).
Qed.

(** C6.  [ResourceThreadPoolExecutor(resources)] raises a [ValueError] when
    there is no resource; with one or more it builds an open pool with one
    started worker per resource, bound to it; and from then on, whatever
    happens to the pool, [submit] of a [ResourceFuture] raises the
    [OSError] "resource is closed ..." and leaves the pool alone when the
    pool is closed, and otherwise returns that same future and leaves the
    pool with the future appended to the tail of the work queue, the future
    itself, the workers and the flag being as before. *)
Theorem ResourceThreadPoolExecutor_init_and_submit (rs : list Resource) :
  (length rs = 0%nat ->
     ResourceThreadPoolExecutor.__init__ rs
     = Raises (ValueError "at least one worker is required"))
  /\ ((1 <= length rs)%nat ->
        exists p0 r0,
          ResourceThreadPoolExecutor.__init__ rs = Returns p0
          /\ rs !! 0%nat = Some r0
          /\ _closed p0 = false /\ _work_queue p0 = []
          /\ length (_workers p0) = length rs
          /\ (forall i r, rs !! i = Some r ->
                _workers p0 !! i = Some {| _resource := Some r; state := Waiting |})
          /\ forall s, rtc step (Ready, p0) s ->
             forall future f, heap s.2 !! future = Some (AResourceFuture f) ->
               (_closed s.2 = true ->
                  ResourceThreadPoolExecutor.submit s.2 future
                  = (Raises (OSError ("resource is closed for file " +:+ file_path r0)), s.2))
               /\ (_closed s.2 = false ->
                     let after := (ResourceThreadPoolExecutor.submit s.2 future).2 in
                     (ResourceThreadPoolExecutor.submit s.2 future).1 = Returns future
                     /\ _work_queue after = _work_queue s.2 ++ [Some future]
                     /\ heap after = heap s.2
                     /\ heap after !! future = Some (AResourceFuture f)
                     /\ _workers after = _workers s.2
                     /\ _closed after = false
                     /\ trace after = trace s.2)).
Proof.
  split.
  - by destruct rs.
  - intros Hlen. destruct rs as [| r0 rest]; [simpl in Hlen; lia |].
    eexists; exists r0. split; [reflexivity |]. split; [done |].
    split; [done |]. split; [done |]. split; [simpl; by rewrite length_map |].
    split.
    + intros i r Hi. cbn [_workers].
      change (map ?f ?l) with (f <$> l).
      by rewrite list_lookup_fmap, Hi.
    + intros s Hreach future f Hf.
      assert (first_worker_on (file_path r0) s.2) as (w & r & Hw & Hr & Hpath).
      { eapply first_worker_on_reachable; [| exact Hreach].
        eexists; exists r0. simpl. done. }
      unfold ResourceThreadPoolExecutor.submit, ResourceThreadPoolExecutor.closed,
        ResourceThreadPoolExecutor.first_file_path.
      rewrite Hf, Hw, Hr, Hpath. split; intros Hclosed; rewrite Hclosed; [done |].
      cbn [fst snd put set_queue _work_queue heap _workers _closed trace].
      by rewrite Hf, Hclosed.
Qed.

Lemma ResourceThreadPoolExecutor_init_and_submit_witness :
  let made := set_heap [AResourceFuture (ResourceFuture.__init__ read_task)] example_pool in
  (ResourceThreadPoolExecutor.submit made 0).1 = Returns 0%nat
  /\ _work_queue (ResourceThreadPoolExecutor.submit made 0).2 = [Some 0%nat]
  /\ ResourceThreadPoolExecutor.submit example_closed_pool_with_future 0
     = (Raises (OSError "resource is closed for file sample.root"),
        example_closed_pool_with_future).
Proof.
  intros made.
  destruct (ResourceThreadPoolExecutor_init_and_submit example_resources) as [_ Hsome].
  assert (1 <= length example_resources)%nat as Hlen by (simpl; lia).
  destruct (Hsome Hlen) as (p0 & r0 & Hinit & Hr0 & _ & _ & _ & _ & Hsubmit).
  injection Hinit as <-. injection Hr0 as <-.
  assert (rtc step (Ready, example_pool) (Ready, made)) as Hmade
    by (apply (run_rtc [NewResourceFuture read_task]); reflexivity).
  assert (rtc step (Ready, example_pool) (ExitReturned, example_closed_pool_with_future))
    as Hclosed
    by (apply (run_rtc (example_close_schedule ++ [NewResourceFuture read_task]));
        vm_compute; reflexivity).
  destruct (Hsubmit _ Hmade 0%nat (ResourceFuture.__init__ read_task) eq_refl)
    as [_ Hopen].
  destruct (Hopen eq_refl) as (Hret & Hqueue & _).
  destruct (Hsubmit _ Hclosed 0%nat (ResourceFuture.__init__ read_task) eq_refl)
    as [Hraise _].
  split; [exact Hret |]. split; [exact Hqueue |]. exact (Hraise eq_refl).
Defined.

(** *** Futures: results and failures *)

(** [TrivialExecutor.submit] hands back whatever the task returned, not a
    [NoFuture] around it: for [submit(lambda x: x + 1, 6)] that is the int 7,
    on which [result()] is an [AttributeError], where a [NoFuture] would have
    given 7. *)
Lemma TrivialExecutor_submit_returns_bare_value :
  (forall task args, TrivialExecutor.submit task args = task args)
  /\ TrivialExecutor.submit increment_task [PyInt 6] = Returns (PyInt 7)
  /\ method_result (PyInt 7) None
     = Raises (AttributeError "object has no attribute 'result'")
  /\ method_result (NoFuture.__init__ (PyInt 7)) None = Returns (PyInt 7).
Proof. repeat split. Qed.

(** With a timeout, [result()] on a future that is still pending does not
    wait for the future to be resolved: it completes, and with [None]. *)
Lemma Future_result_timeout_while_pending :
  let pending := Future.__init__ increment_task [PyInt 6] in
  Future._finished pending = false
  /\ Future.result pending (Some 1) = Completes (Returns PyNone)
  /\ Future.result pending (Some 1) <> Blocks.
Proof. repeat split. discriminate. Qed.

Lemma Future_result_finished (self : Future.t) (tm : timeout) :
  Future._finished self = true ->
  Future.result self tm
  = match Future._excinfo self with
    | None => Completes (Returns (Future._result self))
    | Some e => Completes (Raises e)
    end.
Proof. unfold Future.result, Event_wait. by intros ->. Qed.

(** C4 (amended).  Without a timeout, [result()] blocks as long as the
    future is pending; with a timeout the call does not stay blocked.  Once
    the future is resolved, [result()], with or
    without a timeout, returns the stored value when no error was captured
    and raises the captured error otherwise, the same at every call; and
    after [_run], the stored value is what the task returned and the
    captured error is the [Exception] the task raised. *)
Theorem Future_result_contract (self : Future.t) (tm tm' : timeout) :
  (Future._finished self = false -> Future.result self None = Blocks)
  /\ (forall seconds, Future.result self (Some seconds) <> Blocks)
  /\ (Future._finished self = true ->
        Future.result self tm
        = match Future._excinfo self with
          | None => Completes (Returns (Future._result self))
          | Some e => Completes (Raises e)
          end
        /\ Future.result self tm' = Future.result self tm)
  /\ (forall task args v,
        task args = Returns v ->
        let done := (Future._run (Future.__init__ task args)).1 in
        Future._finished done = true
        /\ Future.result done tm = Completes (Returns v))
  /\ (forall task args e,
        task args = Raises e -> isinstance_Exception e = true ->
        let done := (Future._run (Future.__init__ task args)).1 in
        Future._finished done = true
        /\ Future.result done tm = Completes (Raises e)).
Proof.
  split; [| split; [| split; [| split]]].
  - unfold Future.result, Event_wait. by intros ->.
  - intros seconds. unfold Future.result, Event_wait.
    rewrite orb_true_r. by destruct (Future._excinfo self).
  - intros Hfin. by rewrite !Future_result_finished.
  - intros task args v Htask. unfold Future._run, Future.__init__. simpl.
    rewrite Htask. done.
  - intros task args e Htask He. unfold Future._run, Future.__init__. simpl.
    rewrite Htask, He. done.
Qed.

(** A worker that runs a task calling [sys.exit()]: [SystemExit] is not an
    [Exception], so nothing is captured, the future stays pending for ever
    ([result()] blocks) and the worker thread ends with the second future
    still on the queue. *)
Lemma worker_ends_on_SystemExit :
  exists p' w f,
    worker_step 0 (example_running exiting_task) = Some p'
    /\ _workers p' !! 0%nat = Some w /\ is_alive w = false
    /\ heap p' !! 0%nat = Some (AFuture f)
    /\ Future._finished f = false /\ Future._excinfo f = None
    /\ Future.result f None = Blocks
    /\ _work_queue p' = [Some 1%nat]
    /\ worker_step 0 p' = None.
Proof. do 3 eexists. vm_compute. repeat split. Qed.

(** C5 (amended).  When a worker of a [ThreadPoolExecutor] runs a future
    whose task raises an exception [e] that is an instance of [Exception]:
    the step captures [e] in the future and marks it finished, so that
    [result()], on whatever thread and with whatever timeout, raises that
    same [e]; the worker thread is alive and back at the queue, which it
    left as it was; and it takes the next future on the queue, if there is
    one, and runs it. *)
Theorem worker_survives_task_exception
    (p : pool) (i : nat) (w : worker) (future : nat) (f : Future.t) (e : exn) :
  _workers p !! i = Some w -> _resource w = None -> state w = Running future ->
  heap p !! future = Some (AFuture f) ->
  Future._task f (Future._args f) = Raises e ->
  isinstance_Exception e = true ->
  exists f' p',
    worker_step i p = Some p'
    /\ heap p' !! future = Some (AFuture f')
    /\ Future._excinfo f' = Some e /\ Future._finished f' = true
    /\ (forall tm, Future.result f' tm = Completes (Raises e))
    /\ _workers p' !! i = Some {| _resource := None; state := Waiting |}
    /\ is_alive {| _resource := None; state := Waiting |} = true
    /\ _work_queue p' = _work_queue p
    /\ (forall next q, _work_queue p = Some next :: q ->
          exists p'',
            worker_step i p' = Some p''
            /\ _workers p'' !! i = Some {| _resource := None; state := Running next |}
            /\ _work_queue p'' = q).
Proof.
  intros Hw Hres Hst Hf Htask He.
  assert (heap p !! future = Some (AFuture f)) as Hf' by done.
  apply lookup_lt_Some in Hf'.
  eexists; eexists. split.
  { unfold worker_step. rewrite Hw. simpl. rewrite Hst, Hf. simpl. rewrite Hres.
    unfold Future._run. rewrite Htask, He. reflexivity. }
  assert (forall st q, _workers (set_thread i st q) !! i
            = (fun w0 => {| _resource := _resource w0; state := st |}) <$> _workers q !! i)
    as Hset by (intros; apply list_lookup_alter_eq).
  split; [simpl; by apply list_lookup_insert_eq |].
  split; [done |]. split; [done |].
  split; [intros tm; unfold Future.result, Event_wait; done |].
  split; [rewrite Hset; cbn [_workers set_future set_heap]; by rewrite Hw; cbn; rewrite Hres |].
  split; [done |]. split; [done |].
  intros next q Hq. eexists. split.
  { unfold worker_step. rewrite Hset. cbn [_workers set_future set_heap].
    rewrite Hw. cbn. rewrite Hq. reflexivity. }
  split; [| done].
  rewrite Hset. cbn [_workers set_queue set_thread set_workers set_future set_heap].
  rewrite list_lookup_alter_eq, Hw. cbn. by rewrite Hres.
Qed.

Lemma worker_survives_task_exception_witness :
  exists f' p',
    worker_step 0 (example_running failing_task) = Some p'
    /\ heap p' !! 0%nat = Some (AFuture f')
    /\ Future._excinfo f' = Some (ValueError "bad basket")
    /\ Future._finished f' = true
    /\ (forall tm, Future.result f' tm = Completes (Raises (ValueError "bad basket")))
    /\ _workers p' !! 0%nat = Some {| _resource := None; state := Waiting |}
    /\ is_alive {| _resource := None; state := Waiting |} = true
    /\ _work_queue p' = _work_queue (example_running failing_task)
    /\ (forall next q, _work_queue (example_running failing_task) = Some next :: q ->
          exists p'',
            worker_step 0 p' = Some p''
            /\ _workers p'' !! 0%nat = Some {| _resource := None; state := Running next |}
            /\ _work_queue p'' = q).
Proof.
  refine (worker_survives_task_exception (example_running failing_task) 0
            {| _resource := None; state := Running 0 |} 0
            (Future.__init__ failing_task []) (ValueError "bad basket") _ _ _ _ _ _);
    reflexivity.
Defined.

(** The worker of this example does go on: it runs the second future, whose
    result is 7. *)
Example worker_runs_next_future :
  exists s f,
    run [WorkerStep 0; WorkerStep 0; WorkerStep 0] (Ready, example_running failing_task)
    = Some s
    /\ heap s.2 !! 1%nat = Some (AFuture f)
    /\ Future.result f None = Completes (Returns (PyInt 7)).
Proof. do 2 eexists. vm_compute. repeat split. Qed.

(** *** Resource futures: injected failures and notification *)

(** C10.  On a [ResourceFuture] that is already finished [_set_excinfo]
    changes nothing and calls nothing.  On a pending one it records the
    error, marks the future finished and calls the notification callback when
    one was set (and nothing when none was).  [_run] settles the future when
    the task returns (the value is stored) or raises an [Exception] (the
    error is stored and [result()] raises it): it marks the future finished
    and likewise calls the callback when one was set, once; when the task
    raises anything else, [_run] settles nothing and calls nothing. *)
Theorem ResourceFuture_set_excinfo_settles_once
    (self : ResourceFuture.t) (excinfo : exn) (resource : Resource) :
  (ResourceFuture._finished self = true ->
     ResourceFuture._set_excinfo self excinfo = (self, []))
  /\ (ResourceFuture._finished self = false ->
        let self' := (ResourceFuture._set_excinfo self excinfo).1 in
        ResourceFuture._excinfo self' = Some excinfo
        /\ ResourceFuture._finished self' = true
        /\ ResourceFuture._result self' = ResourceFuture._result self
        /\ ResourceFuture._notify self' = ResourceFuture._notify self
        /\ (forall tm, ResourceFuture.result self' tm = Completes (Raises excinfo))
        /\ (ResourceFuture._set_excinfo self excinfo).2
           = match ResourceFuture._notify self with
             | Some callback => [Notified callback]
             | None => []
             end)
  /\ (forall v,
        ResourceFuture._task self resource = Returns v ->
        let self' := (ResourceFuture._run self resource).1.1 in
        ResourceFuture._finished self' = true
        /\ ResourceFuture._result self' = v
        /\ ResourceFuture._excinfo self' = ResourceFuture._excinfo self
        /\ ResourceFuture._notify self' = ResourceFuture._notify self
        /\ (ResourceFuture._run self resource).1.2
           = match ResourceFuture._notify self with
             | Some callback => [Notified callback]
             | None => []
             end)
  /\ (forall e,
        ResourceFuture._task self resource = Raises e ->
        isinstance_Exception e = true ->
        let self' := (ResourceFuture._run self resource).1.1 in
        ResourceFuture._finished self' = true
        /\ ResourceFuture._excinfo self' = Some e
        /\ ResourceFuture._result self' = ResourceFuture._result self
        /\ ResourceFuture._notify self' = ResourceFuture._notify self
        /\ (forall tm, ResourceFuture.result self' tm = Completes (Raises e))
        /\ (ResourceFuture._run self resource).1.2
           = match ResourceFuture._notify self with
             | Some callback => [Notified callback]
             | None => []
             end)
  /\ (forall e,
        ResourceFuture._task self resource = Raises e ->
        isinstance_Exception e = false ->
        ResourceFuture._run self resource = (self, [], Raises e)).
Proof.
  split; [| split; [| split; [| split]]].
  - unfold ResourceFuture._set_excinfo. by intros ->.
  - unfold ResourceFuture._set_excinfo. intros ->. simpl.
    unfold ResourceFuture.result, Event_wait. simpl. done.
  - intros v Htask. unfold ResourceFuture._run. by rewrite Htask.
  - intros e Htask He. unfold ResourceFuture._run. rewrite Htask, He. simpl.
    unfold ResourceFuture.result, Event_wait. simpl. done.
  - intros e Htask He. unfold ResourceFuture._run. by rewrite Htask, He.
Qed.

Lemma ResourceFuture_set_excinfo_settles_once_witness :
  let pending := ResourceFuture._set_notify (ResourceFuture.__init__ read_task) 7 in
  let resource := {| file_path := "sample.root"; is_open := true |} in
  ResourceFuture._set_excinfo pending (OSError "gone")
  = ({| ResourceFuture._task := read_task; ResourceFuture._finished := true;
        ResourceFuture._result := PyNone;
        ResourceFuture._excinfo := Some (OSError "gone");
        ResourceFuture._notify := Some 7%nat |}, [Notified 7])
  /\ ResourceFuture._set_excinfo
       (ResourceFuture._set_excinfo pending (OSError "gone")).1 (OSError "late")
     = ((ResourceFuture._set_excinfo pending (OSError "gone")).1, [])
  /\ ResourceFuture._finished (ResourceFuture._run pending resource).1.1 = true
  /\ ResourceFuture._result (ResourceFuture._run pending resource).1.1 = PyStr "sample.root"
  /\ (ResourceFuture._run pending resource).1.2 = [Notified 7].
Proof.
  intros pending resource.
  destruct (ResourceFuture_set_excinfo_settles_once pending (OSError "gone") resource)
    as (_ & Hpending & Hrun & _).
  destruct (ResourceFuture_set_excinfo_settles_once
              (ResourceFuture._set_excinfo pending (OSError "gone")).1 (OSError "late")
              resource) as (Hsettled & _).
  destruct (Hrun (PyStr "sample.root") eq_refl) as (Hfin & Hres & _ & _ & Hev).
  split; [reflexivity |]. split; [exact (Hsettled eq_refl) |].
  split; [exact Hfin |]. split; [exact Hres |]. exact Hev.
Defined.

(** *** Further properties of the executors *)

(** No step opens a closed pool again. *)
Lemma closed_stays_closed (s s' : pc * pool) :
  step s s' -> _closed s.2 = true -> _closed s'.2 = true.
Proof.
  destruct s as [at_ p], s' as [at' p']. intros [a Ha] Hc. simpl in *.
  destruct (decide (a = MainStep)) as [-> | Hne].
  - simpl in Ha.
    destruct at_ as [| c i | c j | c | [|] | k |]; simpl in Ha; try done;
      repeat match type of Ha with
             | context [match ?x with _ => _ end] => destruct x
             end;
      by injection Ha as <- <-.
  - destruct (perform_client a at_ at' p p' Hne Ha) as (_ & Hcl & _). congruence.
Qed.

Lemma closed_reachable (s s' : pc * pool) :
  rtc step s s' -> _closed s.2 = true -> _closed s'.2 = true.
Proof.
  intros Hreach Hc. revert s' Hreach. apply rtc_ind_r; [done |].
  intros s1 s2 _ Hstep IH. by apply (closed_stays_closed s1).
Qed.

(** After [close], [submit] always fails: in a pool built by
    [ResourceThreadPoolExecutor(resources)], once [_closed] is set, every
    later [submit] of a [ResourceFuture] raises [OSError] and leaves the pool
    as it is. *)
Theorem submit_after_close_always_fails
    (rs : list Resource) (p0 : pool) (s s' : pc * pool) (future : nat)
    (f : ResourceFuture.t) :
  ResourceThreadPoolExecutor.__init__ rs = Returns p0 ->
  rtc step (Ready, p0) s ->
  _closed s.2 = true ->
  rtc step s s' ->
  heap s'.2 !! future = Some (AResourceFuture f) ->
  exists path,
    ResourceThreadPoolExecutor.submit s'.2 future
    = (Raises (OSError ("resource is closed for file " +:+ path)), s'.2).
Proof.
  intros Hinit Hreach Hc Hreach' Hf.
  destruct rs as [| r0 rest]; [done |]. injection Hinit as Hp0. symmetry in Hp0.
  assert (first_worker_on (file_path r0) s'.2) as (w & r & Hw & Hr & Hpath).
  { assert (rtc step (Ready, p0) s') as Hall by (by etrans).
    subst p0. refine (first_worker_on_reachable _ _ _ _ Hall).
    eexists; exists r0. simpl. done. }
  exists (file_path r0).
  unfold ResourceThreadPoolExecutor.submit, ResourceThreadPoolExecutor.closed,
    ResourceThreadPoolExecutor.first_file_path.
  by rewrite Hf, (closed_reachable s s' Hreach' Hc), Hw, Hr, Hpath.
Qed.

Lemma submit_after_close_always_fails_witness :
  exists path,
    ResourceThreadPoolExecutor.submit example_closed_pool_with_future 0
    = (Raises (OSError ("resource is closed for file " +:+ path)),
       example_closed_pool_with_future).
Proof.
  refine (submit_after_close_always_fails example_resources example_pool
            (ExitReturned, example_closed_pool)
            (ExitReturned, example_closed_pool_with_future) 0
            (ResourceFuture.__init__ read_task) _ _ _ _ _).
  - reflexivity.
  - apply (run_rtc example_close_schedule). vm_compute. reflexivity.
  - reflexivity.
  - apply (run_rtc [NewResourceFuture read_task]). reflexivity.
  - reflexivity.
Defined.

(** [ThreadPoolExecutor.submit] does not wait: it makes a new pending
    [Future] for the task, puts it at the tail of the queue and returns it;
    workers and flag are untouched. *)
Theorem ThreadPoolExecutor_submit_enqueues
    (self : pool) (task : list pyobj -> outcome pyobj) (args : list pyobj) :
  let future := (ThreadPoolExecutor.submit self task args).1 in
  let self' := (ThreadPoolExecutor.submit self task args).2 in
  heap self !! future = None
  /\ heap self' !! future = Some (AFuture (Future.__init__ task args))
  /\ Future.result (Future.__init__ task args) None = Blocks
  /\ _work_queue self' = _work_queue self ++ [Some future]
  /\ _workers self' = _workers self
  /\ (forall other, (other < length (heap self))%nat ->
        heap self' !! other = heap self !! other).
Proof.
  simpl. split; [by apply lookup_ge_None |].
  split; [by rewrite lookup_app_r, Nat.sub_diag by lia |].
  split; [done |]. split; [done |]. split; [done |].
  intros other Hlt. by apply lookup_app_l.
Qed.

(** [ThreadPoolExecutor(num_workers)] starts [num_workers] workers, or
    [os.cpu_count()] of them by default; all are alive and wait on one empty
    queue. *)
Theorem ThreadPoolExecutor_init_starts_workers (cpu_count : nat) (n : option nat) :
  let self := ThreadPoolExecutor.__init__ cpu_count n in
  ThreadPoolExecutor.num_workers self = default cpu_count n
  /\ Forall (fun w => is_alive w = true /\ state w = Waiting /\ _resource w = None)
       (_workers self)
  /\ _work_queue self = [] /\ heap self = [].
Proof.
  simpl. split; [apply length_replicate |]. split; [| done].
  apply Forall_replicate. done.
Qed.

(** An injected failure does not keep the worker from running the task
    later, and [_run] writes whatever the future holds: when the task raises
    an [Exception] the injected error is replaced by it; when the task
    returns, the value is stored but [result()] still raises the injected
    error. *)
Theorem ResourceFuture_run_after_injected_failure
    (self : ResourceFuture.t) (injected : exn) (resource : Resource) (tm : timeout) :
  let failed := (ResourceFuture._set_excinfo self injected).1 in
  let rerun := (ResourceFuture._run failed resource).1.1 in
  (forall e, ResourceFuture._finished self = false ->
     ResourceFuture._task self resource = Raises e -> isinstance_Exception e = true ->
     ResourceFuture.result failed tm = Completes (Raises injected)
     /\ ResourceFuture.result rerun tm = Completes (Raises e))
  /\ (forall v, ResourceFuture._finished self = false ->
        ResourceFuture._task self resource = Returns v ->
        ResourceFuture._result rerun = v
        /\ ResourceFuture.result rerun tm = Completes (Raises injected)).
Proof.
  unfold ResourceFuture._set_excinfo, ResourceFuture._run, ResourceFuture.result,
    Event_wait.
  split.
  - intros e -> Htask He. simpl. rewrite Htask, He. done.
  - intros v -> Htask. simpl. rewrite Htask. done.
Qed.

(** *** Notification, and futures that no worker will run *)

Lemma main_step_heap_trace (at_ at' : pc) (p p' : pool) :
  main_step at_ p = Some (at', p') -> heap p' = heap p /\ trace p' = trace p.
Proof.
  intros Hstep. destruct at_ as [| c i | c j | c | [|] | k |]; simpl in Hstep;
    try done;
    repeat match type of Hstep with
           | context [match ?x with _ => _ end] => destruct x
           end;
    by injection Hstep as <- <-.
Qed.

(** What a step adds to the trace: nothing, or the call of the callback of a
    resource future that the step has just marked finished. *)
Lemma perform_trace (a : action) (s s' : pc * pool) :
  perform a s = Some s' ->
  exists evs,
    trace s'.2 = trace s.2 ++ evs
    /\ forall callback, Notified callback ∈ evs ->
         exists future f,
           heap s'.2 !! future = Some (AResourceFuture f)
           /\ ResourceFuture._notify f = Some callback
           /\ ResourceFuture._finished f = true.
Proof.
  destruct s as [at_ p], s' as [at' p']. simpl. intros Hstep.
  assert (forall q : pool, trace q = trace p ->
            exists evs, trace q = trace p ++ evs
              /\ forall callback, Notified callback ∈ evs ->
                   exists future f,
                     heap q !! future = Some (AResourceFuture f)
                     /\ ResourceFuture._notify f = Some callback
                     /\ ResourceFuture._finished f = true) as Hsilent.
  { intros q Hq. exists []. rewrite app_nil_r. split; [done |].
    intros callback Hin. by apply elem_of_nil in Hin. }
  destruct a as [i | | | | task args | task | fid | fid cb | fid e]; simpl in Hstep.
  - destruct (worker_step i p) as [p1 |] eqn:Hws; [| done].
    injection Hstep as <- <-. unfold worker_step in Hws.
    destruct (_workers p !! i) as [w |]; [| done]. simpl in Hws.
    destruct (state w) as [| fid |]; [| | done].
    + destruct (_work_queue p) as [| [fid |] q]; [done | |];
        injection Hws as <-; by apply Hsilent.
    + destruct (heap p !! fid) as [obj |] eqn:Hobj; [| done]. simpl in Hws.
      assert (fid < length (heap p))%nat as Hlt by (by eapply lookup_lt_Some).
      destruct (_resource w) as [r |], obj as [f | f].
      * injection Hws as <-. by apply Hsilent.
      * unfold ResourceFuture._run in Hws.
        destruct (ResourceFuture._task f r) as [v | e];
          [| destruct (isinstance_Exception e)];
          injection Hws as <-; [| | apply Hsilent; simpl; apply app_nil_r].
        -- eexists. split; [reflexivity |]. intros callback Hin.
           eexists fid, _. split; [simpl; by apply list_lookup_insert_eq |].
           unfold ResourceFuture.call_notify in Hin. simpl in *.
           destruct (ResourceFuture._notify f) as [cb |]; [| by apply elem_of_nil in Hin].
           apply list_elem_of_singleton in Hin. injection Hin as ->. done.
        -- eexists. split; [reflexivity |]. intros callback Hin.
           eexists fid, _. split; [simpl; by apply list_lookup_insert_eq |].
           unfold ResourceFuture.call_notify in Hin. simpl in *.
           destruct (ResourceFuture._notify f) as [cb |]; [| by apply elem_of_nil in Hin].
           apply list_elem_of_singleton in Hin. injection Hin as ->. done.
      * destruct (Future._run f) as [f' out]. injection Hws as <-. by apply Hsilent.
      * injection Hws as <-. by apply Hsilent.
  - apply Hsilent. by apply (main_step_heap_trace at_ at').
  - destruct at_; try done. injection Hstep as <- <-. by apply Hsilent.
  - destruct at_; try done. injection Hstep as <- <-. by apply Hsilent.
  - injection Hstep as <- <-. by apply Hsilent.
  - injection Hstep as <- <-. by apply Hsilent.
  - injection Hstep as <- <-. apply Hsilent.
    unfold ResourceThreadPoolExecutor.submit.
    destruct (heap p !! fid) as [[f | f] |];
      [| destruct (ResourceThreadPoolExecutor.closed p);
         [destruct (ResourceThreadPoolExecutor.first_file_path p) |] |]; done.
  - destruct (heap p !! fid) as [[f | f] |]; try done.
    injection Hstep as <- <-. by apply Hsilent.
  - destruct (heap p !! fid) as [[f | f] |] eqn:Hobj; try done.
    assert (fid < length (heap p))%nat as Hlt by (by eapply lookup_lt_Some).
    unfold ResourceFuture._set_excinfo in Hstep.
    destruct (ResourceFuture._finished f) eqn:Hfin; simpl in Hstep;
      injection Hstep as <- <-.
    + exists []. simpl. split; [done |].
      intros callback Hin. by apply elem_of_nil in Hin.
    + eexists. split; [reflexivity |]. intros callback Hin.
      eexists fid, _. split; [simpl; by apply list_lookup_insert_eq |].
      unfold ResourceFuture.call_notify in Hin. simpl in *.
      destruct (ResourceFuture._notify f) as [cb' |]; [| by apply elem_of_nil in Hin].
      apply list_elem_of_singleton in Hin. injection Hin as ->. done.
Qed.

(** A step never removes anything from the trace, and whenever it calls a
    notification callback, the future that holds the callback is already
    marked finished: [result()] on it completes without waiting. *)
Theorem notify_only_after_finished (s s' : pc * pool) :
  step s s' ->
  exists evs,
    trace s'.2 = trace s.2 ++ evs
    /\ forall callback, Notified callback ∈ evs ->
         exists future f,
           heap s'.2 !! future = Some (AResourceFuture f)
           /\ ResourceFuture._notify f = Some callback
           /\ ResourceFuture._finished f = true
           /\ ResourceFuture.result f None <> Blocks.
Proof.
  intros [a Ha]. destruct (perform_trace a s s' Ha) as (evs & Htrace & Hev).
  exists evs. split; [done |]. intros callback Hin.
  destruct (Hev callback Hin) as (future & f & Hf & Hn & Hfin).
  exists future, f. repeat split; try done.
  unfold ResourceFuture.result, Event_wait. rewrite Hfin. simpl.
  by destruct (ResourceFuture._excinfo f).
Qed.

Lemma notify_only_after_finished_witness :
  exists s' evs,
    perform (WorkerStep 0) example_notifying = Some s'
    /\ trace s'.2 = trace example_notifying.2 ++ evs
    /\ Notified 7 ∈ evs
    /\ forall callback, Notified callback ∈ evs ->
         exists future f,
           heap s'.2 !! future = Some (AResourceFuture f)
           /\ ResourceFuture._notify f = Some callback
           /\ ResourceFuture._finished f = true
           /\ ResourceFuture.result f None <> Blocks.
Proof.
  destruct (perform (WorkerStep 0) example_notifying) as [s' |] eqn:Hstep;
    [| by vm_compute in Hstep].
  destruct (notify_only_after_finished example_notifying s'
              (ex_intro _ (WorkerStep 0) Hstep)) as (evs & Htrace & Hev).
  exists s', evs. split; [done |]. split; [done |]. split; [| done].
  vm_compute in Hstep. injection Hstep as <-. simpl in Htrace.
  destruct evs as [| ev evs]; [done |]. injection Htrace as <- <-.
  apply list_elem_of_here.
Defined.

Lemma worker_step_terminated (i : nat) (p : pool) :
  all_terminated p -> worker_step i p = None.
Proof.
  intros Hall. unfold worker_step.
  destruct (_workers p !! i) as [w |] eqn:Hw; [| done]. simpl.
  pose proof (proj1 (Forall_lookup _ _) Hall i w Hw) as Hdead.
  unfold is_alive in Hdead. by destruct (state w).
Qed.

(** Nothing but a worker's step changes a plain [Future] on the heap. *)
Lemma perform_keeps_future (a : action) (s s' : pc * pool) (future : nat) (f : Future.t) :
  (forall i, a <> WorkerStep i) ->
  perform a s = Some s' ->
  heap s.2 !! future = Some (AFuture f) ->
  heap s'.2 !! future = Some (AFuture f).
Proof.
  destruct s as [at_ p], s' as [at' p']. simpl. intros Hnw Hstep Hf.
  assert (future < length (heap p))%nat as Hlt by (by eapply lookup_lt_Some).
  destruct a as [i | | | | task args | task | fid | fid cb | fid e]; simpl in Hstep.
  - by destruct (Hnw i).
  - destruct (main_step_heap_trace _ _ _ _ Hstep) as [-> _]. done.
  - destruct at_; try done. by injection Hstep as <- <-.
  - destruct at_; try done. by injection Hstep as <- <-.
  - injection Hstep as <- <-. simpl. by rewrite lookup_app_l.
  - injection Hstep as <- <-. simpl. by rewrite lookup_app_l.
  - injection Hstep as <- <-. unfold ResourceThreadPoolExecutor.submit.
    destruct (heap p !! fid) as [[g | g] |];
      [| destruct (ResourceThreadPoolExecutor.closed p);
         [destruct (ResourceThreadPoolExecutor.first_file_path p) |] |]; done.
  - destruct (heap p !! fid) as [[g | g] |] eqn:Hg; try done.
    injection Hstep as <- <-. simpl.
    rewrite list_lookup_insert_ne; [done | congruence].
  - destruct (heap p !! fid) as [[g | g] |] eqn:Hg; try done.
    destruct (ResourceFuture._set_excinfo g e) as [g' evs].
    injection Hstep as <- <-. simpl.
    rewrite list_lookup_insert_ne; [done | congruence].
Qed.

(** A [ThreadPoolExecutor] has no closed flag: [submit] after [shutdown]
    (every worker has ended) is accepted like any other, but in no execution
    is the future ever run: it stays as it was made, pending, and [result()]
    without a timeout blocks for ever. *)
Theorem submit_after_shutdown_never_runs
    (p : pool) (at_ : pc) (task : list pyobj -> outcome pyobj) (args : list pyobj)
    (s' : pc * pool) :
  all_terminated p ->
  rtc step (at_, (ThreadPoolExecutor.submit p task args).2) s' ->
  exists f,
    heap s'.2 !! (ThreadPoolExecutor.submit p task args).1 = Some (AFuture f)
    /\ f = Future.__init__ task args
    /\ Future._finished f = false
    /\ Future.result f None = Blocks
    /\ all_terminated s'.2.
Proof.
  intros Hall Hreach. exists (Future.__init__ task args).
  enough (heap s'.2 !! (ThreadPoolExecutor.submit p task args).1
          = Some (AFuture (Future.__init__ task args)) /\ all_terminated s'.2)
    as [H1 H2] by done.
  revert s' Hreach. apply rtc_ind_r.
  - simpl. split; [| done]. by rewrite lookup_app_r, Nat.sub_diag by lia.
  - intros s1 s2 _ [a Ha] [Hf Hterm]. split.
    + apply (perform_keeps_future a s1); [| done | done].
      intros i ->. destruct s1 as [at1 p1]. simpl in Ha.
      by rewrite (worker_step_terminated i p1 Hterm) in Ha.
    + apply (all_terminated_evolves s1.2); [by apply (perform_evolves a) | done].
Qed.

Lemma submit_after_shutdown_never_runs_witness :
  exists f,
    heap (example_submitted_after_shutdown).2 !! 0%nat = Some (AFuture f)
    /\ f = Future.__init__ increment_task [PyInt 6]
    /\ Future._finished f = false
    /\ Future.result f None = Blocks
    /\ all_terminated (example_submitted_after_shutdown).2.
Proof.
  refine (submit_after_shutdown_never_runs example_shut_down Ready
            increment_task [PyInt 6] example_submitted_after_shutdown _ _).
  - repeat constructor.
  - apply (run_rtc [CallShutdown; MainStep; MainStep; MainStep; MainStep; MainStep;
                    MainStep; MainStep]).
    reflexivity.
Defined.

(** The second [shutdown()] of that example has returned, and the future is
    still on the queue. *)
Example example_submitted_after_shutdown_state :
  example_submitted_after_shutdown.1 = Ready
  /\ _work_queue example_submitted_after_shutdown.2 = [Some 0%nat].
Proof. vm_compute. done. Qed.

(** *** Shutting down twice *)

Lemma run_app (l1 l2 : list action) (s : pc * pool) :
  run (l1 ++ l2) s = s1 ← run l1 s; run l2 s1.
Proof.
  revert s. induction l1 as [| a l1 IH]; intros s; simpl; [done |].
  destruct (perform a s) as [s1 |]; simpl; [apply IH | done].
Qed.

Lemma run_app_Some (l1 l2 : list action) (s s1 : pc * pool) :
  run l1 s = Some s1 -> run (l1 ++ l2) s = run l2 s1.
Proof. intros H. by rewrite run_app, H. Qed.

(** The [for] loop of [shutdown] over workers that have all ended puts
    nothing on the queue. *)
Lemma for_loop_terminated (c : caller) (p : pool) (d : nat) :
  forall k,
    all_terminated p -> (k + d = length (_workers p))%nat ->
    run (replicate (S d) MainStep) (ForWorker c k, p) = Some (AnyAlive c 0, p).
Proof.
  induction d as [| d IH]; intros k Hall Hk.
  - assert (_workers p !! k = None) as Hnone by (apply lookup_ge_None; lia).
    simpl. by rewrite Hnone.
  - assert (k < length (_workers p))%nat as Hlt by lia.
    destruct (lookup_lt_is_Some_2 _ _ Hlt) as [w Hw].
    pose proof (proj1 (Forall_lookup _ _) Hall k w Hw) as Hdead.
    change (replicate (S (S d)) MainStep) with (MainStep :: replicate (S d) MainStep).
    cbn [run perform main_step]. rewrite Hw, Hdead. simpl mbind.
    apply IH; [done | lia].
Qed.

(** The [any(...)] of [shutdown] over workers that have all ended is false. *)
Lemma any_loop_terminated (c : caller) (p : pool) (d : nat) :
  forall k,
    all_terminated p -> (k + d = length (_workers p))%nat ->
    run (replicate (S d) MainStep) (AnyAlive c k, p) = Some (ShutdownReturned c, p).
Proof.
  induction d as [| d IH]; intros k Hall Hk.
  - assert (_workers p !! k = None) as Hnone by (apply lookup_ge_None; lia).
    simpl. by rewrite Hnone.
  - assert (k < length (_workers p))%nat as Hlt by lia.
    destruct (lookup_lt_is_Some_2 _ _ Hlt) as [w Hw].
    pose proof (proj1 (Forall_lookup _ _) Hall k w Hw) as Hdead.
    change (replicate (S (S d)) MainStep) with (MainStep :: replicate (S d) MainStep).
    cbn [run perform main_step]. rewrite Hw, Hdead. simpl mbind.
    apply IH; [done | lia].
Qed.

Lemma release_released (k : nat) (p : pool) (w : worker) :
  _workers p !! k = Some w -> is_open <$> _resource w = Some false ->
  release k p = p.
Proof.
  intros Hw Hrel. destruct p as [h q ws cl tr]. unfold release, set_workers. simpl in *.
  f_equal. apply list_eq. intros n.
  destruct (decide (k = n)) as [<- | Hne].
  - rewrite list_lookup_alter_eq, Hw. simpl. f_equal.
    destruct w as [[[path op] |] st]; simpl in *; [| done].
    injection Hrel as ->. done.
  - by rewrite list_lookup_alter_ne.
Qed.

(** The loop of [__exit__] over resources that are all released changes
    nothing. *)
Lemma exit_loop_released (p : pool) (d : nat) :
  forall k,
    all_released p -> (k + d = length (_workers p))%nat ->
    run (replicate (S d) MainStep) (ExitResource k, p)
    = Some (ExitReturned, set_closed true p).
Proof.
  induction d as [| d IH]; intros k Hall Hk.
  - assert (_workers p !! k = None) as Hnone by (apply lookup_ge_None; lia).
    simpl. by rewrite Hnone.
  - assert (k < length (_workers p))%nat as Hlt by lia.
    destruct (lookup_lt_is_Some_2 _ _ Hlt) as [w Hw].
    pose proof (proj1 (Forall_lookup _ _) Hall k w Hw) as Hrel.
    change (replicate (S (S d)) MainStep) with (MainStep :: replicate (S d) MainStep).
    cbn [run perform main_step]. rewrite Hw.
    simpl in Hrel.
    destruct (_resource w) as [r |] eqn:Hr; [| done].
    rewrite (release_released k p w Hw); [| by rewrite Hr].
    apply IH; [done | lia].
Qed.

(** [shutdown()] on a pool whose workers have all ended returns after one
    pass over the workers and leaves the pool exactly as it was; [close()] on
    a closed pool does the same. *)
Theorem shutdown_twice_changes_nothing (p : pool) :
  all_terminated p ->
  let n := length (_workers p) in
  run (CallShutdown :: replicate (2 * n + 3) MainStep) (Ready, p) = Some (Ready, p)
  /\ (_closed p = true -> all_released p ->
        run (CallClose :: replicate (3 * n + 5) MainStep) (Ready, p) = Some (Ready, p)).
Proof.
  intros Hall n. split.
  - replace (2 * n + 3)%nat with (S n + (S n + 1))%nat by lia.
    rewrite !replicate_add.
    change (run (CallShutdown :: ?l) (Ready, p)) with (run l (ForWorker Direct 0, p)).
    rewrite (run_app_Some _ _ _ _ (for_loop_terminated Direct p n 0 Hall eq_refl)).
    rewrite (run_app_Some _ _ _ _ (any_loop_terminated Direct p n 0 Hall eq_refl)).
    done.
  - intros Hclosed Hrel.
    replace (3 * n + 5)%nat with (S n + (S n + (1 + (S n + 1))))%nat by lia.
    rewrite !replicate_add.
    change (run (CallClose :: ?l) (Ready, p)) with (run l (ForWorker FromExit 0, p)).
    rewrite (run_app_Some _ _ _ _ (for_loop_terminated FromExit p n 0 Hall eq_refl)).
    rewrite (run_app_Some _ _ _ _ (any_loop_terminated FromExit p n 0 Hall eq_refl)).
    rewrite (run_app_Some (replicate 1 MainStep) _ (ShutdownReturned FromExit, p)
               (ExitResource 0, p) eq_refl).
    rewrite (run_app_Some _ _ _ _ (exit_loop_released p n 0 Hrel eq_refl)).
    destruct p as [h q ws cl tr]. simpl in Hclosed. subst cl. done.
Qed.

Lemma shutdown_twice_changes_nothing_witness :
  run (CallShutdown :: replicate 7 MainStep) (Ready, example_closed_pool)
  = Some (Ready, example_closed_pool)
  /\ run (CallClose :: replicate 11 MainStep) (Ready, example_closed_pool)
     = Some (Ready, example_closed_pool).
Proof.
  destruct (shutdown_twice_changes_nothing example_closed_pool) as [H1 H2].
  - repeat constructor.
  - split; [exact H1 |]. apply H2; [reflexivity | repeat constructor].
Defined.

(** *** A submitted future is run at most once *)

Lemma count_app {A : Type} (test : A -> bool) (l1 l2 : list A) :
  count test (l1 ++ l2) = (count test l1 + count test l2)%nat.
Proof. induction l1 as [| x l1 IH]; simpl; [done | rewrite IH; lia]. Qed.

Lemma count_alter {A : Type} (test : A -> bool) (g : A -> A) (i : nat) (l : list A) (x : A) :
  l !! i = Some x ->
  (count test (alter g i l) + (if test x then 1 else 0)
   = count test l + (if test (g x) then 1 else 0))%nat.
Proof.
  revert i. induction l as [| y l IH]; intros i Hi; [done |].
  destruct i as [| i]; simpl in *.
  - injection Hi as ->. destruct (test x), (test (g x)); lia.
  - specialize (IH i Hi). change (alter g i l) with (list_alter g i l) in IH.
    destruct (test x), (test (g x)), (test y); lia.
Qed.

Lemma count_lookup {A : Type} (test : A -> bool) (i : nat) (l : list A) (x : A) :
  l !! i = Some x -> test x = true -> (1 <= count test l)%nat.
Proof.
  revert i. induction l as [| y l IH]; intros i Hi Hx; [done |].
  destruct i as [| i]; simpl in *.
  - injection Hi as ->. rewrite Hx. lia.
  - specialize (IH i Hi Hx). destruct (test y); lia.
Qed.

(** Changing the state of worker [i] moves one reference. *)
Lemma refcount_set_thread (future i : nat) (st : thread) (p : pool) (w : worker) :
  _workers p !! i = Some w ->
  (refcount future (set_thread i st p) + (if running future w then 1 else 0)
   = refcount future p
     + (if running future {| _resource := _resource w; state := st |} then 1 else 0))%nat.
Proof.
  intros Hw. unfold refcount. simpl.
  pose proof (count_alter (running future)
                (fun w0 => {| _resource := _resource w0; state := st |}) i _ w Hw) as H.
  simpl in H.
  destruct (running future w),
    (running future {| _resource := _resource w; state := st |}); lia.
Qed.

Lemma count_alter_same {A : Type} (test : A -> bool) (g : A -> A) (i : nat) (l : list A) :
  (forall x, test (g x) = test x) -> count test (alter g i l) = count test l.
Proof.
  intros Hg. revert i. induction l as [| y l IH]; intros i; [done |].
  destruct i as [| i]; simpl; [by rewrite Hg |].
  change (list_alter g i l) with (alter g i l). by rewrite IH.
Qed.

Lemma refcount_release (future k : nat) (p : pool) :
  refcount future (release k p) = refcount future p.
Proof.
  unfold refcount. simpl. f_equal. by apply count_alter_same.
Qed.

Lemma refcount_put (future : nat) (item : option nat) (p : pool) :
  refcount future (put item p)
  = (refcount future p + (if refers future item then 1 else 0))%nat.
Proof.
  unfold refcount. simpl. rewrite count_app. simpl.
  destruct (refers future item); lia.
Qed.

(** The invariant survives a step that, for every future, either leaves a
    resource future in its place or leaves the place as it is without adding
    a reference. *)
Lemma run_once_kept (p p' : pool) :
  (forall future,
     (exists f, heap p' !! future = Some (AResourceFuture f))
     \/ (heap p' !! future = heap p !! future
         /\ (refcount future p' <= refcount future p)%nat)) ->
  run_once_invariant p -> run_once_invariant p'.
Proof.
  intros Hstep Hinv future. specialize (Hinv future).
  destruct (Hstep future) as [[f ->] | [-> Hle]]; [done |].
  destruct (heap p !! future) as [[f | f] |]; [| done | lia].
  destruct Hinv as [H1 H2]. split; [lia |]. intros Hfin. specialize (H2 Hfin). lia.
Qed.

Lemma lookup_insert_kind (h : list future_obj) (at_ future : nat) (f f' : ResourceFuture.t) :
  h !! at_ = Some (AResourceFuture f) ->
  (exists g, <[at_ := AResourceFuture f']> h !! future = Some (AResourceFuture g))
  \/ <[at_ := AResourceFuture f']> h !! future = h !! future.
Proof.
  intros Hat. destruct (decide (at_ = future)) as [<- | Hne].
  - left. exists f'. apply list_lookup_insert_eq. by eapply lookup_lt_Some.
  - right. by apply list_lookup_insert_ne.
Qed.

Lemma run_once_worker_step (i : nat) (p p' : pool) :
  worker_step i p = Some p' -> run_once_invariant p -> run_once_invariant p'.
Proof.
  unfold worker_step. intros Hstep Hinv.
  destruct (_workers p !! i) as [w |] eqn:Hw; [| done]. simpl in Hstep.
  destruct (state w) as [| held |] eqn:Hst; [| | done].
  - assert (forall future, running future w = false) as Hidle
      by (intros; unfold running; by rewrite Hst).
    destruct (_work_queue p) as [| item q] eqn:Hq; [done |].
    assert (forall st future,
              (if running future {| _resource := _resource w; state := st |}
               then 1 else 0)%nat
              = (if refers future item then 1 else 0)%nat ->
              refcount future (set_thread i st (set_queue q p)) = refcount future p)
      as Hsame.
    { intros st future Heq.
      pose proof (refcount_set_thread future i st (set_queue q p) w Hw) as H.
      rewrite Hidle, Heq in H. unfold refcount at 2 in H. simpl in H.
      unfold refcount at 2. rewrite Hq. simpl.
      destruct (refers future item); lia. }
    destruct item as [held |]; injection Hstep as <-;
      (apply (run_once_kept p); [| done]); intros future; right;
      (split; [done |]); rewrite Hsame; [lia | | lia | done].
    unfold running, refers. simpl.
    destruct (decide (held = future)) as [-> | Hne].
    + by rewrite !bool_decide_eq_true_2.
    + rewrite !bool_decide_eq_false_2; [done | congruence | done].
  - destruct (heap p !! held) as [obj |] eqn:Hobj; [| done]. simpl in Hstep.
    assert (forall st future q,
              _workers q = _workers p -> _work_queue q = _work_queue p ->
              (refcount future (set_thread i st q)
               + (if bool_decide (held = future) then 1 else 0)
               = refcount future p
                 + (if running future {| _resource := _resource w; state := st |}
                    then 1 else 0))%nat) as Hmove.
    { intros st future q Hws Hqs.
      assert (_workers q !! i = Some w) as Hw' by (by rewrite Hws).
      pose proof (refcount_set_thread future i st q w Hw') as H.
      unfold running at 1 in H. rewrite Hst in H.
      unfold refcount at 2 in H. rewrite Hws, Hqs in H. exact H. }
    assert (forall out future,
              running future {| _resource := _resource w; state := after_run out |}
              = false) as Hafter by (intros [|] future; done).
    destruct (_resource w) as [r |] eqn:Hr, obj as [f | f].
    + injection Hstep as <-. apply (run_once_kept p); [| done].
      intros future. right. split; [done |].
      pose proof (Hmove Terminated future p eq_refl eq_refl) as H.
      change (running future _) with false in H.
      destruct (bool_decide (held = future)); lia.
    + destruct (ResourceFuture._run f r) as [[f' evs] out].
      injection Hstep as <-. apply (run_once_kept p); [| done].
      intros future.
      destruct (lookup_insert_kind (heap p) held future f f' Hobj) as [Hres | Hsame];
        [by left |].
      right. split; [exact Hsame |].
      pose proof (Hmove (after_run out) future
                    (emit evs (set_future held (AResourceFuture f') p)) eq_refl eq_refl)
        as H.
      rewrite Hafter in H.
      destruct (bool_decide (held = future)); lia.
    + destruct (Future._run f) as [f' out] eqn:Hrun.
      injection Hstep as <-. intros future.
      pose proof (Hmove (after_run out) future
                    (set_future held (AFuture f') p) eq_refl eq_refl) as H.
      rewrite Hafter in H.
      pose proof (Hinv future) as Hfut. simpl.
      destruct (decide (held = future)) as [<- | Hne].
      * rewrite list_lookup_insert_eq by (by eapply lookup_lt_Some).
        rewrite Hobj in Hfut. destruct Hfut as [Hle _].
        rewrite bool_decide_eq_true_2 in H by done.
        assert (1 <= refcount held p)%nat.
        { unfold refcount.
          pose proof (count_lookup (running held) i _ w Hw) as Hc.
          unfold running at 1 in Hc. rewrite Hst in Hc.
          rewrite bool_decide_eq_true_2 in Hc by done. specialize (Hc eq_refl). lia. }
        simpl in H. split; [lia |]. intros _. lia.
      * rewrite list_lookup_insert_ne by done.
        rewrite bool_decide_eq_false_2 in H by done. simpl in H.
        destruct (heap p !! future) as [[g | g] |]; [| done | lia].
        destruct Hfut as [H1 H2]. split; [lia |]. intros Hfin. specialize (H2 Hfin). lia.
    + injection Hstep as <-. apply (run_once_kept p); [| done].
      intros future. right. split; [done |].
      pose proof (Hmove Terminated future p eq_refl eq_refl) as H.
      change (running future _) with false in H.
      destruct (bool_decide (held = future)); lia.
Qed.

Lemma lookup_snoc_other (h : list future_obj) (obj : future_obj) (future : nat) :
  future <> length h -> (h ++ [obj]) !! future = h !! future.
Proof.
  intros Hne. destruct (decide (future < length h)%nat) as [Hlt | Hge].
  - by apply lookup_app_l.
  - rewrite (proj2 (lookup_ge_None h future)) by lia.
    apply lookup_ge_None. rewrite length_app. simpl. lia.
Qed.

Lemma run_once_perform (a : action) (s s' : pc * pool) :
  perform a s = Some s' -> run_once_invariant s.2 -> run_once_invariant s'.2.
Proof.
  destruct s as [at_ p], s' as [at' p']. simpl. intros Hstep Hinv.
  assert (forall q : pool,
            heap q = heap p ->
            (forall future, refcount future q = refcount future p) ->
            run_once_invariant q) as Hsame.
  { intros q Hh Hr. apply (run_once_kept p); [| done].
    intros future. right. rewrite Hh, Hr. split; [done | lia]. }
  destruct a as [i | | | | task args | task | fid | fid cb | fid e]; simpl in Hstep.
  - destruct (worker_step i p) as [p1 |] eqn:Hws; [| done].
    injection Hstep as <- <-. by apply (run_once_worker_step i p).
  - destruct at_ as [| c i | c j | c | [|] | k |]; simpl in Hstep; try done;
      repeat match type of Hstep with
             | context [match ?x with _ => _ end] => destruct x
             end;
      injection Hstep as <- <-; try done; apply Hsame; try done.
    + intros future. by rewrite refcount_put, Nat.add_0_r.
    + intros future. apply refcount_release.
  - destruct at_; try done. by injection Hstep as <- <-.
  - destruct at_; try done. by injection Hstep as <- <-.
  - injection Hstep as <- <-. intros future.
    pose proof (Hinv future) as Hfut.
    unfold ThreadPoolExecutor.submit. cbn [snd].
    rewrite refcount_put. unfold refers.
    change (heap (put ?x ?q)) with (heap q).
    change (refcount future (set_heap ?h p)) with (refcount future p).
    cbn [heap set_heap].
    destruct (decide (future = length (heap p))) as [-> | Hne].
    + rewrite lookup_app_r, Nat.sub_diag by lia. simpl.
      rewrite (proj2 (lookup_ge_None (heap p) (length (heap p)))) in Hfut by lia.
      rewrite bool_decide_eq_true_2 by done. split; [lia | done].
    + rewrite lookup_snoc_other by done.
      rewrite bool_decide_eq_false_2 by congruence. rewrite Nat.add_0_r. exact Hfut.
  - injection Hstep as <- <-. apply (run_once_kept p); [| done].
    intros future. simpl.
    destruct (decide (future = length (heap p))) as [-> | Hne].
    + left. eexists. by rewrite lookup_app_r, Nat.sub_diag by lia.
    + right. split; [by apply lookup_snoc_other | done].
  - injection Hstep as <- <-. unfold ResourceThreadPoolExecutor.submit.
    destruct (heap p !! fid) as [[f | f] |] eqn:Hobj;
      [| destruct (ResourceThreadPoolExecutor.closed p);
         [destruct (ResourceThreadPoolExecutor.first_file_path p) |] |]; try done.
    cbn [snd]. apply (run_once_kept p); [| done]. intros future.
    destruct (decide (fid = future)) as [<- | Hne]; [left; by exists f |].
    right. split; [done |]. rewrite refcount_put. unfold refers.
    rewrite bool_decide_eq_false_2 by congruence. lia.
  - destruct (heap p !! fid) as [[f | f] |] eqn:Hobj; try done.
    injection Hstep as <- <-. apply (run_once_kept p); [| done]. intros future.
    destruct (lookup_insert_kind (heap p) fid future f
                (ResourceFuture._set_notify f cb) Hobj) as [Hres | Hkeep];
      [by left | right; by split].
  - destruct (heap p !! fid) as [[f | f] |] eqn:Hobj; try done.
    destruct (ResourceFuture._set_excinfo f e) as [f' evs].
    injection Hstep as <- <-. apply (run_once_kept p); [| done]. intros future.
    destruct (lookup_insert_kind (heap p) fid future f f' Hobj) as [Hres | Hkeep];
      [by left | right; by split].
Qed.

(** A worker's step leaves alone every future that nothing refers to. *)
Lemma worker_step_keeps_unreferenced (i : nat) (p p' : pool) (future : nat) :
  worker_step i p = Some p' -> refcount future p = 0%nat ->
  heap p' !! future = heap p !! future.
Proof.
  unfold worker_step. intros Hstep Hzero.
  destruct (_workers p !! i) as [w |] eqn:Hw; [| done]. simpl in Hstep.
  destruct (state w) as [| held |] eqn:Hst; [| | done].
  - destruct (_work_queue p) as [| [held |] q]; [done | |]; by injection Hstep as <-.
  - assert (held <> future) as Hne.
    { intros ->. unfold refcount in Hzero.
      pose proof (count_lookup (running future) i _ w Hw) as Hc.
      unfold running at 1 in Hc. rewrite Hst in Hc.
      rewrite bool_decide_eq_true_2 in Hc by done. specialize (Hc eq_refl). lia. }
    destruct (heap p !! held) as [obj |]; [| done]. simpl in Hstep.
    destruct (_resource w) as [r |], obj as [f | f].
    + by injection Hstep as <-.
    + destruct (ResourceFuture._run f r) as [[f' evs] out].
      injection Hstep as <-. simpl. by apply list_lookup_insert_ne.
    + destruct (Future._run f) as [f' out].
      injection Hstep as <-. simpl. by apply list_lookup_insert_ne.
    + by injection Hstep as <-.
Qed.

(** In every execution that starts with nothing on the queue and no worker
    holding a future, a [Future] made by [ThreadPoolExecutor.submit] is run
    at most once: once it is finished nothing refers to it any more, and its
    state, and with it what [result()] gives, never changes again. *)
Theorem finished_future_never_changes
    (p0 : pool) (at0 : pc) (s s' : pc * pool) (future : nat) (f : Future.t) :
  (forall fid, refcount fid p0 = 0%nat) ->
  rtc step (at0, p0) s ->
  heap s.2 !! future = Some (AFuture f) ->
  Future._finished f = true ->
  rtc step s s' ->
  refcount future s.2 = 0%nat
  /\ heap s'.2 !! future = Some (AFuture f)
  /\ forall tm, Future.result f tm
       = match Future._excinfo f with
         | None => Completes (Returns (Future._result f))
         | Some e => Completes (Raises e)
         end.
Proof.
  intros Hquiet Hreach Hf Hfin Hreach'.
  assert (run_once_invariant s.2) as Hinv.
  { clear Hf Hreach'. revert s Hreach. apply rtc_ind_r.
    - intros fid. simpl. rewrite Hquiet.
      destruct (heap p0 !! fid) as [[g | g] |]; [split; [lia | done] | done | done].
    - intros s1 s2 _ [a Ha] IH. by apply (run_once_perform a s1). }
  split; [| split].
  - specialize (Hinv future). rewrite Hf in Hinv. by apply Hinv.
  - enough (run_once_invariant s'.2 /\ heap s'.2 !! future = Some (AFuture f)) as [_ H]
      by done.
    revert s' Hreach'. apply rtc_ind_r; [done |].
    intros s1 s2 _ [a Ha] [Hinv1 Hf1]. split; [by apply (run_once_perform a s1) |].
    assert ((exists i, a = WorkerStep i) \/ (forall i, a <> WorkerStep i)) as [[i ->] | Hnw]
      by (destruct a; (left; by eexists) || (right; by intros)).
    2: { by apply (perform_keeps_future a s1 s2 future f). }
    destruct s1 as [at1 p1], s2 as [at2 p2]. simpl in *.
    destruct (worker_step i p1) as [p1' |] eqn:Hws; [| done].
    injection Ha as <- <-.
    rewrite (worker_step_keeps_unreferenced i p1 p1' future Hws); [done |].
    specialize (Hinv1 future). rewrite Hf1 in Hinv1. by apply Hinv1.
  - intros tm. by apply Future_result_finished.
Qed.

Lemma finished_future_never_changes_witness :
  exists f,
    heap example_first_done.2 !! 0%nat = Some (AFuture f)
    /\ refcount 0 example_first_done.2 = 0%nat
    /\ heap example_all_done.2 !! 0%nat = Some (AFuture f)
    /\ forall tm, Future.result f tm = Completes (Raises (ValueError "bad basket")).
Proof.
  eexists.
  assert (heap example_first_done.2 !! 0%nat = Some (AFuture _)) as Hf by reflexivity.
  split; [exact Hf |].
  refine (finished_future_never_changes (ThreadPoolExecutor.__init__ 4 (Some 1%nat))
            Ready example_first_done example_all_done 0 _ _ _ Hf _ _).
  - intros fid. reflexivity.
  - apply (run_rtc [SubmitTask failing_task []; SubmitTask increment_task [PyInt 6];
                    WorkerStep 0; WorkerStep 0]).
    reflexivity.
  - reflexivity.
  - apply (run_rtc [WorkerStep 0; WorkerStep 0; CallShutdown; MainStep; MainStep;
                    WorkerStep 0; MainStep; MainStep; MainStep]).
    reflexivity.
Defined.

(** *** Shutting down an idle pool *)

(** The [for] loop of [shutdown] over workers that are all alive puts one
    sentinel per worker. *)
Lemma for_loop_alive (c : caller) (d : nat) :
  forall (p : pool) (k : nat),
    Forall (fun w => is_alive w = true) (_workers p) ->
    (k + d = length (_workers p))%nat ->
    run (replicate (S d) MainStep) (ForWorker c k, p)
    = Some (AnyAlive c 0, set_queue (_work_queue p ++ replicate d None) p).
Proof.
  induction d as [| d IH]; intros p k Hall Hk.
  - assert (_workers p !! k = None) as Hnone by (apply lookup_ge_None; lia).
    simpl. rewrite Hnone, app_nil_r. by destruct p.
  - assert (k < length (_workers p))%nat as Hlt by lia.
    destruct (lookup_lt_is_Some_2 _ _ Hlt) as [w Hw].
    pose proof (proj1 (Forall_lookup _ _) Hall k w Hw) as Halive. simpl in Halive.
    change (replicate (S (S d)) MainStep) with (MainStep :: replicate (S d) MainStep).
    cbn [run perform main_step]. rewrite Hw, Halive.
    change (Some ?x ≫= ?g) with (g x). cbv beta.
    rewrite (IH (put None p) (S k)); [| done | simpl; lia].
    simpl. by rewrite <- app_assoc.
Qed.

Lemma ended_upto_lookup (k : nat) (ws : list worker) :
  (k <= length ws)%nat -> ended_upto k ws !! k = ws !! k.
Proof.
  intros Hk. unfold ended_upto.
  rewrite lookup_app_r; rewrite length_fmap, length_take_le by lia; [| lia].
  by rewrite Nat.sub_diag, lookup_drop, Nat.add_0_r.
Qed.

Lemma ended_upto_alter (k : nat) (ws : list worker) (w : worker) :
  ws !! k = Some w ->
  alter (fun w0 => {| _resource := _resource w0; state := Terminated |}) k
    (ended_upto k ws)
  = ended_upto (S k) ws.
Proof.
  intros Hw. assert (k < length ws)%nat as Hlt by (by eapply lookup_lt_Some).
  unfold ended_upto.
  rewrite (drop_S _ _ _ Hw), (take_S_r _ _ _ Hw), fmap_app, <- app_assoc.
  assert (length (ended <$> take k ws) = k) as Hlen
    by (rewrite length_fmap, length_take_le; lia).
  rewrite <- Hlen at 1. rewrite <- (Nat.add_0_r (length _)) at 1.
  by rewrite alter_app_r.
Qed.

(** Workers that wait on a queue of sentinels end one after the other. *)
Lemma workers_take_sentinels (at_ : pc) (ws : list worker) (d : nat) :
  forall (p : pool) (k : nat),
    Forall (fun w => state w = Waiting) ws ->
    _workers p = ended_upto k ws ->
    _work_queue p = replicate d None ->
    (k + d = length ws)%nat ->
    run (WorkerStep <$> seq k d) (at_, p)
    = Some (at_, set_queue [] (set_workers (ended <$> ws) p)).
Proof.
  induction d as [| d IH]; intros p k Hall Hws Hq Hk.
  - simpl. do 2 f_equal. destruct p as [h q ws' cl tr]. simpl in *. subst.
    unfold ended_upto. rewrite take_ge, drop_ge by lia. by rewrite app_nil_r.
  - assert (k < length ws)%nat as Hlt by lia.
    destruct (lookup_lt_is_Some_2 _ _ Hlt) as [w Hw].
    pose proof (proj1 (Forall_lookup _ _) Hall k w Hw) as Hwait. simpl in Hwait.
    assert (_workers p !! k = Some w) as Hw'
      by (rewrite Hws, ended_upto_lookup by lia; done).
    cbn [seq fmap list_fmap run perform]. unfold worker_step.
    rewrite Hw'. cbn [mbind option_bind]. rewrite Hwait, Hq.
    cbn [replicate]. cbn [mbind option_bind].
    assert (_workers (set_thread k Terminated (set_queue (replicate d None) p))
            = ended_upto (S k) ws) as Hws'.
    { simpl. rewrite Hws. by apply (ended_upto_alter k ws w). }
    assert (S k + d = length ws)%nat as Hk' by lia.
    rewrite (IH _ (S k) Hall Hws' eq_refl Hk').
    by destruct p.
Qed.

(** [shutdown()] of an idle pool returns: with the workers all waiting on an
    empty queue, the client puts one sentinel per worker, every worker takes
    one and ends, and the client finds none alive; the queue is empty again,
    and futures, resources and flag are as before. *)
Theorem shutdown_of_idle_pool_returns (p : pool) :
  _work_queue p = [] ->
  Forall (fun w => state w = Waiting) (_workers p) ->
  let p' := set_workers (ended <$> _workers p) p in
  run (shutdown_schedule (length (_workers p))) (Ready, p) = Some (Ready, p')
  /\ all_terminated p'
  /\ length (_workers p') = length (_workers p)
  /\ resources p' = resources p
  /\ _work_queue p' = [] /\ heap p' = heap p /\ _closed p' = _closed p.
Proof.
  intros Hq Hwait p'. split.
  - unfold shutdown_schedule. set (n := length (_workers p)).
    change (run (CallShutdown :: ?l) (Ready, p)) with (run l (ForWorker Direct 0, p)).
    assert (Forall (fun w => is_alive w = true) (_workers p)) as Halive.
    { eapply Forall_impl; [exact Hwait |]. intros w Hw. unfold is_alive. by rewrite Hw. }
    rewrite (run_app_Some _ _ _ _ (for_loop_alive Direct n p 0 Halive eq_refl)).
    rewrite Hq, app_nil_l.
    rewrite (run_app_Some _ _ _ _
               (workers_take_sentinels (AnyAlive Direct 0) (_workers p) n
                  (set_queue (replicate n None) p) 0 Hwait eq_refl eq_refl eq_refl)).
    assert (set_queue [] (set_workers (ended <$> _workers p)
                            (set_queue (replicate n None) p)) = p') as ->.
    { subst p'. destruct p as [h q ws cl tr]. simpl in *. by subst q. }
    assert (all_terminated p') as Hterm.
    { subst p'. unfold all_terminated. simpl. apply Forall_fmap.
      apply Forall_forall. done. }
    assert (length (_workers p') = n) as Hlen by (subst p'; simpl; apply length_fmap).
    rewrite <- Hlen.
    rewrite (run_app_Some _ _ _ _ (any_loop_terminated Direct p' _ 0 Hterm eq_refl)).
    done.
  - subst p'. simpl. split; [| split; [apply length_fmap | split; [| done]]].
    + unfold all_terminated. simpl. apply Forall_fmap. by apply Forall_forall.
    + unfold resources. simpl. apply list_eq. intros i.
      change (map ?g ?l) with (g <$> l). rewrite !list_lookup_fmap.
      by destruct (_workers p !! i).
Qed.

Lemma shutdown_of_idle_pool_returns_witness :
  let p := ThreadPoolExecutor.__init__ 4 (Some 3%nat) in
  run (shutdown_schedule 3) (Ready, p)
  = Some (Ready, set_workers (ended <$> _workers p) p).
Proof.
  intros p.
  refine (proj1 (shutdown_of_idle_pool_returns p _ _)).
  - reflexivity.
  - repeat constructor.
Defined.

(** *** Resource pools run resource futures *)

(** What a worker's step does, case by case. *)
Lemma worker_step_cases (i : nat) (p p' : pool) :
  worker_step i p = Some p' ->
  exists w, _workers p !! i = Some w
  /\ ((state w = Waiting
       /\ exists q, (_work_queue p = None :: q
                     /\ p' = set_thread i Terminated (set_queue q p))
                    \/ (exists held, _work_queue p = Some held :: q
                          /\ p' = set_thread i (Running held) (set_queue q p)))
      \/ (exists held r f,
            state w = Running held /\ _resource w = Some r
            /\ heap p !! held = Some (AResourceFuture f)
            /\ p' = set_thread i (after_run (ResourceFuture._run f r).2)
                      (emit (ResourceFuture._run f r).1.2
                         (set_future held
                            (AResourceFuture (ResourceFuture._run f r).1.1) p)))
      \/ (exists held f,
            state w = Running held /\ _resource w = None
            /\ heap p !! held = Some (AFuture f)
            /\ p' = set_thread i (after_run (Future._run f).2)
                      (set_future held (AFuture (Future._run f).1) p))
      \/ (exists held,
            state w = Running held
            /\ ((exists f, heap p !! held = Some (AFuture f) /\ is_Some (_resource w))
                \/ (exists f, heap p !! held = Some (AResourceFuture f)
                              /\ _resource w = None))
            /\ p' = set_thread i Terminated p)).
Proof.
  unfold worker_step. intros Hstep.
  destruct (_workers p !! i) as [w |] eqn:Hw; [| done]. simpl in Hstep.
  exists w. split; [done |].
  destruct (state w) as [| held |] eqn:Hst; [| | done].
  - left. split; [done |].
    destruct (_work_queue p) as [| [held |] q]; [done | |];
      injection Hstep as <-; exists q; [right; by exists held | by left].
  - right. destruct (heap p !! held) as [obj |] eqn:Hobj; [| done]. simpl in Hstep.
    destruct (_resource w) as [r |] eqn:Hr, obj as [f | f].
    + right. right. injection Hstep as <-. exists held.
      split; [done |]. split; [| done]. left. exists f. split; [done | by eexists].
    + left. destruct (ResourceFuture._run f r) as [[f' evs] out] eqn:Hrun.
      injection Hstep as <-. exists held, r, f. by rewrite Hrun.
    + right. left. destruct (Future._run f) as [f' out] eqn:Hrun.
      injection Hstep as <-. exists held, f. by rewrite Hrun.
    + right. right. injection Hstep as <-. exists held.
      split; [done |]. split; [| done]. right. by exists f.
Qed.

(** No step turns a resource future into anything else. *)
Lemma resource_ref_perform (a : action) (s s' : pc * pool) (future : nat) :
  perform a s = Some s' -> resource_ref s.2 future -> resource_ref s'.2 future.
Proof.
  destruct s as [at_ p], s' as [at' p']. simpl. intros Hstep [f Hf].
  assert (forall held g, heap p !! held = Some (AResourceFuture g) ->
            forall g', resource_ref (set_future held (AResourceFuture g') p) future)
    as Hres.
  { intros held g Hg g'. unfold resource_ref. simpl.
    destruct (lookup_insert_kind (heap p) held future g g' Hg) as [Hk | ->];
      [done | by exists f]. }
  assert (forall obj, resource_ref (set_heap (heap p ++ [obj]) p) future) as Happ.
  { intros obj. exists f. simpl. rewrite lookup_app_l; [done |]. by eapply lookup_lt_Some. }
  destruct a as [i | | | | task args | task | fid | fid cb | fid e]; simpl in Hstep.
  - destruct (worker_step i p) as [p1 |] eqn:Hws; [| done].
    injection Hstep as <- <-.
    destruct (worker_step_cases i p p1 Hws)
      as (w & Hw & [[_ [q [[_ ->] | [held [_ ->]]]]]
                   | [(held & r & g & _ & _ & Hg & ->)
                     | [(held & g & _ & _ & Hg & ->) | (held & _ & _ & ->)]]]).
    + by exists f.
    + by exists f.
    + by apply (Hres held g).
    + exists f. simpl. rewrite list_lookup_insert_ne; [done | congruence].
    + by exists f.
  - destruct (main_step_heap_trace _ _ _ _ Hstep) as [Hh _]. exists f. by rewrite Hh.
  - destruct at_; try done. injection Hstep as <- <-. by exists f.
  - destruct at_; try done. injection Hstep as <- <-. by exists f.
  - injection Hstep as <- <-. apply Happ.
  - injection Hstep as <- <-. apply Happ.
  - injection Hstep as <- <-. unfold ResourceThreadPoolExecutor.submit.
    destruct (heap p !! fid) as [[g | g] |];
      [| destruct (ResourceThreadPoolExecutor.closed p);
         [destruct (ResourceThreadPoolExecutor.first_file_path p) |] |]; by exists f.
  - destruct (heap p !! fid) as [[g | g] |] eqn:Hg; try done.
    injection Hstep as <- <-. by apply (Hres fid g).
  - destruct (heap p !! fid) as [[g | g] |] eqn:Hg; try done.
    destruct (ResourceFuture._set_excinfo g e) as [g' evs].
    injection Hstep as <- <-. by apply (Hres fid g).
Qed.

Lemma set_thread_lookup (i j : nat) (st : thread) (q : pool) (w' : worker) :
  _workers (set_thread i st q) !! j = Some w' ->
  (j = i /\ state w' = st) \/ _workers q !! j = Some w'.
Proof.
  simpl. destruct (decide (i = j)) as [-> | Hne].
  - rewrite list_lookup_alter_eq. destruct (_workers q !! j); [| done].
    simpl. intros [= <-]. by left.
  - rewrite list_lookup_alter_ne by done. by right.
Qed.

Lemma release_lookup (k j : nat) (q : pool) (w' : worker) :
  _workers (release k q) !! j = Some w' ->
  exists w, _workers q !! j = Some w /\ state w' = state w.
Proof.
  simpl. destruct (decide (k = j)) as [-> | Hne].
  - rewrite list_lookup_alter_eq. destruct (_workers q !! j) as [w |]; [| done].
    simpl. intros [= <-]. by exists w.
  - rewrite list_lookup_alter_ne by done. intros Hw. by exists w'.
Qed.

(** Where the references of the new state come from, when the step is not
    [ThreadPoolExecutor.submit]: an item of the queue was there before or is
    a resource future just submitted; a future in the hands of a worker was
    there before or was on the queue. *)
Lemma perform_refs (a : action) (at_ at' : pc) (p p' : pool) :
  own_method a ->
  perform a (at_, p) = Some (at', p') ->
  (forall future, Some future ∈ _work_queue p' ->
     Some future ∈ _work_queue p \/ resource_ref p future)
  /\ (forall j w' future,
        _workers p' !! j = Some w' -> state w' = Running future ->
        (exists w, _workers p !! j = Some w /\ state w = Running future)
        \/ Some future ∈ _work_queue p).
Proof.
  intros Hown Hstep.
  assert (forall q : pool,
            _work_queue q = _work_queue p ->
            (forall j w', _workers q !! j = Some w' ->
               exists w, _workers p !! j = Some w /\ state w' = state w) ->
            (forall future, Some future ∈ _work_queue q ->
               Some future ∈ _work_queue p \/ resource_ref p future)
            /\ (forall j w' future,
                  _workers q !! j = Some w' -> state w' = Running future ->
                  (exists w, _workers p !! j = Some w /\ state w = Running future)
                  \/ Some future ∈ _work_queue p)) as Hsame.
  { intros q Hq Hws. split.
    - intros future Hin. left. by rewrite <- Hq.
    - intros j w' future Hw' Hst. left.
      destruct (Hws j w' Hw') as (w & Hw & Heq). exists w. split; [done | congruence]. }
  assert (forall j w', _workers p !! j = Some w' ->
            exists w, _workers p !! j = Some w /\ state w' = state w) as Hid
    by (intros j w' Hw'; by exists w').
  destruct a as [i | | | | task args | task | fid | fid cb | fid e]; simpl in Hstep.
  - destruct (worker_step i p) as [p1 |] eqn:Hws; [| done].
    injection Hstep as <- <-.
    destruct (worker_step_cases i p p1 Hws)
      as (w & Hw & [[Hst [q [[Hq ->] | [held [Hq ->]]]]]
                   | [(held & r & g & Hst & _ & Hg & ->)
                     | [(held & g & Hst & _ & Hg & ->) | (held & Hst & _ & ->)]]]).
    + split.
      * intros future Hin. left. rewrite Hq. apply elem_of_cons. by right.
      * intros j w' future Hw' Hrun.
        destruct (set_thread_lookup _ _ _ _ _ Hw') as [[-> Hst'] | Hold]; [congruence |].
        left. by exists w'.
    + split.
      * intros future Hin. left. rewrite Hq. apply elem_of_cons. by right.
      * intros j w' future Hw' Hrun.
        destruct (set_thread_lookup _ _ _ _ _ Hw') as [[-> Hst'] | Hold].
        -- right. rewrite Hq. apply elem_of_cons. left. congruence.
        -- left. by exists w'.
    + split; [intros future Hin; by left |].
      intros j w' future Hw' Hrun.
      destruct (set_thread_lookup _ _ _ _ _ Hw') as [[-> Hst'] | Hold].
      * rewrite Hrun in Hst'. by destruct (ResourceFuture._run g r).2.
      * left. by exists w'.
    + split; [intros future Hin; by left |].
      intros j w' future Hw' Hrun.
      destruct (set_thread_lookup _ _ _ _ _ Hw') as [[-> Hst'] | Hold].
      * rewrite Hrun in Hst'. by destruct (Future._run g).2.
      * left. by exists w'.
    + split; [intros future Hin; by left |].
      intros j w' future Hw' Hrun.
      destruct (set_thread_lookup _ _ _ _ _ Hw') as [[-> Hst'] | Hold]; [congruence |].
      left. by exists w'.
  - destruct at_ as [| c i | c j | c | [|] | k |]; simpl in Hstep; try done;
      repeat match type of Hstep with
             | context [match ?x with _ => _ end] => destruct x
             end;
      injection Hstep as <- <-; try (by apply Hsame).
    + split.
      * intros future Hin. left. simpl in Hin.
        apply elem_of_app in Hin as [Hin | Hin]; [done |].
        by apply list_elem_of_singleton in Hin.
      * intros j w' future Hw' Hrun. left. by exists w'.
    + apply Hsame; [done |]. intros j w' Hw'. by apply (release_lookup k).
  - destruct at_; try done. injection Hstep as <- <-. by apply Hsame.
  - destruct at_; try done. injection Hstep as <- <-. by apply Hsame.
  - done.
  - injection Hstep as <- <-. by apply Hsame.
  - injection Hstep as <- <-. unfold ResourceThreadPoolExecutor.submit.
    destruct (heap p !! fid) as [[g | g] |] eqn:Hg;
      [| destruct (ResourceThreadPoolExecutor.closed p);
         [destruct (ResourceThreadPoolExecutor.first_file_path p) |] |];
      try (by apply Hsame).
    cbn [snd]. split.
    + intros future Hin. simpl in Hin.
      apply elem_of_app in Hin as [Hin | Hin]; [by left |].
      apply list_elem_of_singleton in Hin. injection Hin as ->. right. by exists g.
    + intros j w' future Hw' Hrun. left. by exists w'.
  - destruct (heap p !! fid) as [[g | g] |]; try done.
    injection Hstep as <- <-. by apply Hsame.
  - destruct (heap p !! fid) as [[g | g] |]; try done.
    destruct (ResourceFuture._set_excinfo g e) as [g' evs].
    injection Hstep as <- <-. by apply Hsame.
Qed.

Lemma resource_pool_perform (a : action) (s s' : pc * pool) :
  own_method a -> perform a s = Some s' ->
  resource_pool_invariant s.2 -> resource_pool_invariant s'.2.
Proof.
  intros Hown Hstep (Hres & Hqueue & Hheld).
  destruct s as [at_ p], s' as [at' p'].
  destruct (perform_refs a at_ at' p p' Hown Hstep) as [Hq Hw]. simpl in *.
  split; [| split].
  - apply (Forall_evolves _ (_workers p)); [| by apply (perform_evolves a (at_, p) (at', p')) | done].
    intros w w' (_ & Hfile & _) [r Hr]. rewrite Hr in Hfile.
    destruct (_resource w'); [by eexists | done].
  - intros future Hin. apply (resource_ref_perform a (at_, p) (at', p')); [done |].
    destruct (Hq future Hin) as [Hold | Hnew]; [by apply Hqueue | done].
  - intros j w' future Hw' Hrun.
    apply (resource_ref_perform a (at_, p) (at', p')); [done |].
    destruct (Hw j w' future Hw' Hrun) as [(w & Hw0 & Hst) | Hin];
      [by apply (Hheld j w) | by apply Hqueue].
Qed.

(** In a pool built by [ResourceThreadPoolExecutor(resources)] and used
    through its own methods, whatever the interleaving, a worker that holds a
    future has a resource and holds a [ResourceFuture], so that the assertion
    in [ResourceWorker.run] holds and the worker's next step calls the
    future's task on the worker's own resource.  When the task returns or
    raises an [Exception], the future is finished afterwards, with the value
    or the error stored, and its callback, when it has one, has been called;
    when it has none, the thread waits on the queue again.  When the task
    raises anything else, the future is left as it was, nothing is called and
    the thread has ended.  (What becomes of the thread when a callback is set
    depends on the callback, which is called outside the [try], and is not
    stated.) *)
Theorem resource_worker_runs_with_its_resource
    (rs : list Resource) (p0 : pool) (schedule : list action) (s : pc * pool)
    (i : nat) (w : worker) (future : nat) :
  ResourceThreadPoolExecutor.__init__ rs = Returns p0 ->
  Forall own_method schedule ->
  run schedule (Ready, p0) = Some s ->
  _workers s.2 !! i = Some w ->
  state w = Running future ->
  exists r f p',
    _resource w = Some r
    /\ heap s.2 !! future = Some (AResourceFuture f)
    /\ worker_step i s.2 = Some p'
    /\ _work_queue p' = _work_queue s.2
    /\ (forall v, ResourceFuture._task f r = Returns v ->
          exists f',
            heap p' !! future = Some (AResourceFuture f')
            /\ ResourceFuture._finished f' = true
            /\ ResourceFuture._result f' = v
            /\ ResourceFuture._excinfo f' = ResourceFuture._excinfo f
            /\ trace p' = trace s.2 ++ match ResourceFuture._notify f with
                                       | Some callback => [Notified callback]
                                       | None => []
                                       end
            /\ (ResourceFuture._notify f = None ->
                  state <$> _workers p' !! i = Some Waiting))
    /\ (forall e, ResourceFuture._task f r = Raises e ->
          isinstance_Exception e = true ->
          exists f',
            heap p' !! future = Some (AResourceFuture f')
            /\ ResourceFuture._finished f' = true
            /\ (forall tm, ResourceFuture.result f' tm = Completes (Raises e))
            /\ trace p' = trace s.2 ++ match ResourceFuture._notify f with
                                       | Some callback => [Notified callback]
                                       | None => []
                                       end
            /\ (ResourceFuture._notify f = None ->
                  state <$> _workers p' !! i = Some Waiting))
    /\ (forall e, ResourceFuture._task f r = Raises e ->
          isinstance_Exception e = false ->
          heap p' = heap s.2 /\ trace p' = trace s.2
          /\ state <$> _workers p' !! i = Some Terminated).
Proof.
  intros Hinit Hown Hrun Hw Hst.
  assert (resource_pool_invariant s.2) as (Hres & _ & Hheld).
  { assert (resource_pool_invariant (Ready, p0).2) as H0.
    { unfold ResourceThreadPoolExecutor.__init__ in Hinit.
      destruct (length rs <? 1)%nat; [done |]. injection Hinit as <-.
      cbn [snd _workers _work_queue heap].
      split; [| split].
      - change (map ?g ?l) with (g <$> l). apply Forall_fmap, Forall_forall.
        intros r _. simpl. by eexists.
      - intros future' Hin. by apply elem_of_nil in Hin.
      - intros j w' future' Hw' Hst'. exfalso.
        apply (list_lookup_fmap_Some_1
                 (fun r => {| _resource := Some r; state := Waiting |})) in Hw'
          as (r & -> & _). done. }
    clear Hinit Hw Hst. revert H0 Hrun. generalize (Ready, p0).
    induction Hown as [| a rest Ha _ IH]; intros s0 H0 Hrun; simpl in Hrun.
    - by injection Hrun as <-.
    - destruct (perform a s0) as [s1 |] eqn:Hstep; [| done]. simpl in Hrun.
      apply (IH s1); [| done]. by apply (resource_pool_perform a s0). }
  destruct (proj1 (Forall_lookup _ _) Hres i w Hw) as [r Hr].
  destruct (Hheld i w future Hw Hst) as [f Hf].
  assert (future < length (heap s.2))%nat as Hlt by (by eapply lookup_lt_Some).
  assert (forall st (q : pool), _workers q = _workers s.2 ->
            state <$> _workers (set_thread i st q) !! i = Some st) as Hthread.
  { intros st q Hq. simpl. by rewrite Hq, list_lookup_alter_eq, Hw. }
  exists r, f. unfold worker_step. rewrite Hw. simpl. rewrite Hst, Hf. simpl.
  rewrite Hr. unfold ResourceFuture._run.
  destruct (ResourceFuture._task f r) as [v | e] eqn:Htask.
  - eexists. split; [done |]. split; [done |]. split; [reflexivity |].
    split; [done |]. split; [| split; [done | done]].
    intros v' [= <-]. eexists. split; [by apply list_lookup_insert_eq |].
    split; [done |]. split; [done |]. split; [done |]. split; [done |].
    intros _. by apply Hthread.
  - destruct (isinstance_Exception e) eqn:He.
    + eexists. split; [done |]. split; [done |]. split; [reflexivity |].
      split; [done |]. split; [done |]. split; [| intros e' [= <-]; congruence].
      intros e' [= <-] _. eexists. split; [by apply list_lookup_insert_eq |].
      split; [done |]. split; [done |]. split; [done |].
      intros _. by apply Hthread.
    + eexists. split; [done |]. split; [done |]. split; [reflexivity |].
      split; [done |]. split; [done |]. split; [intros e' [= <-]; congruence |].
      intros e' [= <-] _. split; [| split].
      * cbn [heap set_thread set_workers emit set_future set_heap].
        by apply list_insert_id.
      * cbn [trace set_thread set_workers emit set_future set_heap]. apply app_nil_r.
      * by apply Hthread.
Qed.

Lemma resource_worker_runs_with_its_resource_witness :
  exists p' f',
    worker_step 0 example_notifying.2 = Some p'
    /\ heap p' !! 0%nat = Some (AResourceFuture f')
    /\ ResourceFuture._finished f' = true
    /\ ResourceFuture._result f' = PyStr "sample.root"
    /\ trace p' = [Notified 7].
Proof.
  destruct (resource_worker_runs_with_its_resource example_resources example_pool
              [NewResourceFuture read_task; SetNotify 0 7; SubmitFuture 0; WorkerStep 0]
              example_notifying 0
              {| _resource := Some {| file_path := "sample.root"; is_open := true |};
                 state := Running 0 |} 0
              eq_refl ltac:(repeat constructor) eq_refl eq_refl eq_refl)
    as (r & f & p' & Hr & Hf & Hstep & _ & Hreturns & _).
  injection Hr as <-. injection Hf as <-.
  destruct (Hreturns (PyStr "sample.root") eq_refl)
    as (f' & Hf' & Hfin & Hres & _ & Htrace & _).
  exists p', f'. split; [exact Hstep |]. split; [exact Hf' |].
  split; [exact Hfin |]. split; [exact Hres |]. exact Htrace.
Defined.

(** *** [shutdown] leaves no submitted task behind *)

Lemma settled_run (f : Future.t) :
  settled f ->
  settled (Future._run f).1
  /\ Future._finished (Future._run f).1 = true
  /\ (Future._run f).2 = Returns tt.
Proof.
  intros [Hcaught Hdone]. unfold Future._run.
  destruct (Future._task f (Future._args f)) as [v | e] eqn:Htask.
  - assert (Future._excinfo f = None) as Hnone.
    { destruct (Future._finished f) eqn:Hfin; rewrite ?Hfin in Hdone; [| done].
      specialize (Hdone None). unfold Future.result in Hdone.
      rewrite Hfin in Hdone. simpl in Hdone.
      by destruct (Future._excinfo f). }
    split; [| done]. split; [done |]. simpl.
    intros tm. unfold Future.result. simpl. by rewrite Hnone, Htask.
  - rewrite (Hcaught e Htask). split; [| done]. split; [done |]. simpl.
    intros tm. unfold Future.result. simpl. by rewrite Htask.
Qed.

Lemma held_by_set_thread (i : nat) (st : thread) (p q : pool) (w : worker) (future : nat) :
  _workers q = _workers p ->
  _workers p !! i = Some w ->
  state w <> Running future ->
  held_by p future -> held_by (set_thread i st q) future.
Proof.
  intros Hq Hw Hne (j & wj & Hj & Hst). exists j, wj. split; [| done].
  simpl. rewrite Hq. destruct (decide (i = j)) as [-> | Hij].
  - rewrite Hw in Hj. injection Hj as ->. done.
  - by rewrite list_lookup_alter_ne.
Qed.

Lemma set_thread_Forall (P : worker -> Prop) (i : nat) (st : thread) (p q : pool) :
  _workers q = _workers p ->
  Forall P (_workers p) ->
  (forall w, _workers p !! i = Some w -> P {| _resource := _resource w; state := st |}) ->
  Forall P (_workers (set_thread i st q)).
Proof.
  intros Hq Hall Hnew. simpl. rewrite Hq. apply Forall_alter; [done |].
  intros w Hw _. by apply Hnew.
Qed.

Lemma set_thread_no_resource (i : nat) (st : thread) (p q : pool) :
  _workers q = _workers p ->
  Forall (fun w => _resource w = None) (_workers p) ->
  Forall (fun w => _resource w = None) (_workers (set_thread i st q)).
Proof.
  intros Hq Hall. apply (set_thread_Forall _ i st p); [done | done |].
  intros w Hw. simpl. by apply (proj1 (Forall_lookup _ _) Hall i w).
Qed.

Lemma set_thread_nonempty (i : nat) (st : thread) (p q : pool) :
  _workers q = _workers p -> _workers p <> [] -> _workers (set_thread i st q) <> [].
Proof.
  intros Hq Hne. simpl. rewrite Hq. intros Hnil.
  apply (f_equal length) in Hnil. rewrite length_alter in Hnil.
  by destruct (_workers p).
Qed.

(** A worker that is busy with anything but the first [n0] futures shows that
    none of them is on the queue any more. *)
Lemma drains_busy_elsewhere (o : bool) (n0 i : nat) (fs : list nat) (p : pool) (w : worker) :
  (o = true \/ fs <> [] -> Forall (serving n0) (_workers p)) ->
  _workers p !! i = Some w ->
  ~ serving n0 w ->
  o = false /\ fs = [].
Proof.
  intros Hserv Hw Hbusy. split.
  - destruct o; [| done]. exfalso. apply Hbusy.
    by apply (proj1 (Forall_lookup _ _) (Hserv (or_introl eq_refl)) i w).
  - destruct fs as [| fid fs']; [done |]. exfalso. apply Hbusy.
    assert (fid :: fs' <> []) as Hfs by done.
    by apply (proj1 (Forall_lookup _ _) (Hserv (or_intror Hfs)) i w).
Qed.

Lemma drains_worker_step (o : bool) (n0 i : nat) (p p' : pool) :
  drains o n0 p -> worker_step i p = Some p' -> drains o n0 p'.
Proof.
  intros (fs & rest & Hq & Hopen & Hfs & Hserv & Hres & Hne & Hheap) Hstep.
  destruct (worker_step_cases i p p' Hstep)
    as (w & Hw & [[Hst [q [[Hq' ->] | [held [Hq' ->]]]]]
                 | [(held & r & g & Hst & Hr & _)
                   | [(held & g & Hst & Hr & Hg & ->) | (held & Hst & Hkind & ->)]]]).
  - (* the worker takes a sentinel *)
    destruct fs as [| fid fs1]; [| by rewrite Hq' in Hq].
    simpl in Hq. assert (o = false) as ->.
    { destruct o; [| done]. rewrite (Hopen eq_refl) in Hq. by rewrite Hq' in Hq. }
    exists [], q. split; [done |]. split; [done |]. split; [done |].
    split; [by intros [? | ?] |].
    split; [by apply (set_thread_no_resource i _ p) |].
    split; [by apply (set_thread_nonempty i _ p) |].
    intros future Hlt. destruct (Hheap future Hlt) as (f & Hf & Hset & Hpending).
    exists f. split; [done |]. split; [done |]. intros Hfin. right.
    destruct (Hpending Hfin) as [Hin | Hheld]; [by apply elem_of_nil in Hin |].
    apply (held_by_set_thread i _ p _ w); [done | done | congruence | done].
  - (* the worker takes a future *)
    destruct fs as [| fid fs1].
    + simpl in Hq. assert (o = false) as ->.
      { destruct o; [| done]. rewrite (Hopen eq_refl) in Hq. by rewrite Hq' in Hq. }
      exists [], q. split; [done |]. split; [done |]. split; [done |].
      split; [by intros [? | ?] |].
      split; [by apply (set_thread_no_resource i _ p) |].
      split; [by apply (set_thread_nonempty i _ p) |].
      intros future Hlt. destruct (Hheap future Hlt) as (f & Hf & Hset & Hpending).
      exists f. split; [done |]. split; [done |]. intros Hfin. right.
      destruct (Hpending Hfin) as [Hin | Hheld]; [by apply elem_of_nil in Hin |].
      apply (held_by_set_thread i _ p _ w); [done | done | congruence | done].
    + rewrite Hq' in Hq. simpl in Hq. injection Hq as -> ->.
      apply Forall_cons in Hfs as [Hfid Hfs1].
      exists fs1, rest. split; [done |]. split; [done |]. split; [done |].
      split.
      { intros _. apply (set_thread_Forall _ i _ p); [done | |].
        - apply Hserv. by right.
        - intros w0 _. right. by exists fid. }
      split; [by apply (set_thread_no_resource i _ p) |].
      split; [by apply (set_thread_nonempty i _ p) |].
      intros future Hlt. destruct (Hheap future Hlt) as (f & Hf & Hset & Hpending).
      exists f. split; [done |]. split; [done |]. intros Hfin.
      destruct (Hpending Hfin) as [Hin | Hheld].
      * apply elem_of_cons in Hin as [-> | Hin]; [| by left].
        right. exists i, {| _resource := _resource w; state := Running fid |}.
        split; [| done]. simpl. by rewrite list_lookup_alter_eq, Hw.
      * right. apply (held_by_set_thread i _ p _ w); [done | done | congruence | done].
  - (* a worker with a resource: there is none *)
    rewrite (proj1 (Forall_lookup _ _) Hres i w Hw) in Hr. done.
  - (* the worker runs the future it holds *)
    destruct (decide (held < n0)%nat) as [Hlt | Hge].
    + destruct (Hheap held Hlt) as (f & Hf & Hset & _).
      rewrite Hg in Hf. injection Hf as ->.
      destruct (settled_run f Hset) as (Hset' & Hfin' & Hout). rewrite Hout.
      exists fs, rest. split; [done |]. split; [done |]. split; [done |].
      split.
      { intros Hcond. apply (set_thread_Forall _ i _ p); [done | by apply Hserv |].
        intros w0 _. by left. }
      split; [by apply (set_thread_no_resource i _ p) |].
      split; [by apply (set_thread_nonempty i _ p) |].
      intros future Hlt'. cbn [heap set_thread set_workers set_future set_heap].
      destruct (decide (future = held)) as [-> | Hother].
      * exists (Future._run f).1. split; [| split; [done | congruence]].
        apply list_lookup_insert_eq. by eapply lookup_lt_Some.
      * rewrite list_lookup_insert_ne by done.
        destruct (Hheap future Hlt') as (f0 & Hf0 & Hset0 & Hpending).
        exists f0. split; [done |]. split; [done |]. intros Hfin.
        destruct (Hpending Hfin) as [Hin | Hheld]; [by left | right].
        apply (held_by_set_thread i _ p _ w); [done | done | congruence | done].
    + destruct (drains_busy_elsewhere o n0 i fs p w Hserv Hw) as [-> ->].
      { intros [Hwait | (fid & Hrun & Hlt)]; [congruence |].
        rewrite Hst in Hrun. injection Hrun as ->. done. }
      exists [], rest. split; [done |]. split; [done |]. split; [done |].
      split; [by intros [? | ?] |].
      split; [by apply (set_thread_no_resource i _ p) |].
      split; [by apply (set_thread_nonempty i _ p) |].
      intros future Hlt'. cbn [heap set_thread set_workers set_future set_heap].
      assert (future <> held) as Hother by (intros ->; done).
      rewrite list_lookup_insert_ne by done.
      destruct (Hheap future Hlt') as (f0 & Hf0 & Hset0 & Hpending).
      exists f0. split; [done |]. split; [done |]. intros Hfin. right.
      destruct (Hpending Hfin) as [Hin | Hheld]; [by apply elem_of_nil in Hin |].
      apply (held_by_set_thread i _ p _ w); [done | done | congruence | done].
  - (* the assertion of the worker fails *)
    destruct Hkind as [(g & Hg & [r Hr]) | (g & Hg & Hr)].
    { rewrite (proj1 (Forall_lookup _ _) Hres i w Hw) in Hr. done. }
    assert (~ (held < n0)%nat) as Hge.
    { intros Hlt. destruct (Hheap held Hlt) as (f & Hf & _). congruence. }
    destruct (drains_busy_elsewhere o n0 i fs p w Hserv Hw) as [-> ->].
    { intros [Hwait | (fid & Hrun & Hlt)]; [congruence |].
      rewrite Hst in Hrun. injection Hrun as ->. done. }
    exists [], rest. split; [done |]. split; [done |]. split; [done |].
    split; [by intros [? | ?] |].
    split; [by apply (set_thread_no_resource i _ p) |].
    split; [by apply (set_thread_nonempty i _ p) |].
    intros future Hlt'.
    destruct (Hheap future Hlt') as (f0 & Hf0 & Hset0 & Hpending).
    exists f0. split; [done |]. split; [done |]. intros Hfin. right.
    destruct (Hpending Hfin) as [Hin | Hheld]; [by apply elem_of_nil in Hin |].
    apply (held_by_set_thread i _ p _ w); [done | done | | done].
    intros Heq. rewrite Hst in Heq. injection Heq as ->. done.
Qed.

(** Once [shutdown] may have been called, whatever is put on the queue comes
    after the futures that were there, and new futures come after them on
    the heap. *)
Lemma drains_grow (n0 : nat) (p p' : pool) (more : list future_obj) (extra : list (option nat)) :
  drains false n0 p ->
  heap p' = heap p ++ more ->
  _workers p' = _workers p ->
  _work_queue p' = _work_queue p ++ extra ->
  drains false n0 p'.
Proof.
  intros (fs & rest & Hq & Hopen & Hfs & Hserv & Hres & Hne & Hheap) Hh Hws Hq'.
  exists fs, (rest ++ extra). rewrite Hws, Hq', Hq, Hh.
  split; [by rewrite app_assoc |]. split; [done |]. split; [done |].
  split; [done |]. split; [done |]. split; [done |].
  intros future Hlt. destruct (Hheap future Hlt) as (f & Hf & Hset & Hpending).
  exists f. split; [by apply lookup_app_l_Some |]. split; [done |].
  intros Hfin. destruct (Hpending Hfin) as [Hin | (i & w & Hw & Hst)]; [by left | right].
  exists i, w. by rewrite Hws.
Qed.

Lemma drains_submit (p : pool) (task : list pyobj -> outcome pyobj) (args : list pyobj) :
  drains true (length (heap p)) p ->
  caught task args ->
  drains true (length (heap (ThreadPoolExecutor.submit p task args).2))
    (ThreadPoolExecutor.submit p task args).2.
Proof.
  intros (fs & rest & Hq & Hopen & Hfs & Hserv & Hres & Hne & Hheap) Hcaught.
  rewrite (Hopen eq_refl), app_nil_r in Hq.
  unfold ThreadPoolExecutor.submit. cbn [snd heap put set_queue set_heap].
  rewrite length_app. cbn [length].
  exists (fs ++ [length (heap p)]), [].
  cbn [_work_queue _workers put set_queue set_heap heap]. rewrite Hq.
  split; [by rewrite fmap_app, app_nil_r |]. split; [done |].
  split.
  { apply Forall_app. split.
    - apply (Forall_impl _ _ _ Hfs). intros x Hx. lia.
    - apply Forall_singleton. lia. }
  split.
  { intros _. apply (Forall_impl _ _ _ (Hserv (or_introl eq_refl))).
    intros w [Hwait | (fid & Hrun & Hlt)]; [by left | right].
    exists fid. split; [done | lia]. }
  split; [done |]. split; [done |].
  intros future Hlt.
  destruct (decide (future < length (heap p))%nat) as [Hold | Hnew].
  - destruct (Hheap future Hold) as (f & Hf & Hset & Hpending).
    exists f. split; [by apply lookup_app_l_Some |]. split; [done |].
    intros Hfin. destruct (Hpending Hfin) as [Hin | Hheld]; [left | by right].
    apply elem_of_app. by left.
  - assert (future = length (heap p)) as -> by lia.
    exists (Future.__init__ task args). split; [| split].
    + by rewrite lookup_app_r, Nat.sub_diag by lia.
    + by split.
    + intros _. left. apply elem_of_app. right. by apply list_elem_of_singleton.
Qed.

Lemma drains_init (cpu_count : nat) (num_workers : option nat) :
  (0 < default cpu_count num_workers)%nat ->
  drains true 0 (ThreadPoolExecutor.__init__ cpu_count num_workers).
Proof.
  intros Hpos. exists [], []. unfold ThreadPoolExecutor.__init__.
  cbn [_work_queue _workers heap].
  split; [done |]. split; [done |]. split; [done |].
  split; [intros _; apply Forall_replicate; by left |].
  split; [by apply Forall_replicate |].
  split; [by destruct (default cpu_count num_workers); [lia |] |].
  intros future Hlt. lia.
Qed.

Lemma drains_before_shutdown (schedule : list action) :
  Forall before_shutdown schedule ->
  forall s s1,
    drains true (length (heap s.2)) s.2 ->
    run schedule s = Some s1 ->
    drains true (length (heap s1.2)) s1.2.
Proof.
  induction 1 as [| a rest Ha _ IH]; intros s s1 Hinv Hrun; simpl in Hrun.
  - by injection Hrun as <-.
  - destruct (perform a s) as [s0 |] eqn:Hstep; [| done]. simpl in Hrun.
    apply (IH s0); [| done]. destruct s as [at_ p].
    destruct a as [i | | | | task args | task | fid | fid cb | fid e]; try done;
      simpl in Hstep.
    + destruct (worker_step i p) as [p' |] eqn:Hws; [| done].
      injection Hstep as <-. cbn [snd] in *.
      assert (length (heap p') = length (heap p)) as ->.
      { destruct (worker_step_cases i p p' Hws)
          as (w & Hw & [[Hst [q [[Hq' ->] | [held [Hq' ->]]]]]
                       | [(held & r & g & Hst & Hr & _ & ->)
                         | [(held & g & Hst & Hr & Hg & ->) | (held & Hst & Hkind & ->)]]]);
          cbn [heap set_thread set_workers set_future set_heap set_queue emit];
          try done; by rewrite length_insert. }
      by apply (drains_worker_step true _ i p).
    + injection Hstep as <-. by apply drains_submit.
Qed.

Lemma drains_perform (n0 : nat) (a : action) (s s' : pc * pool) :
  plain_method a -> perform a s = Some s' ->
  drains false n0 s.2 -> drains false n0 s'.2.
Proof.
  destruct s as [at_ p], s' as [at' p']. cbn [snd]. intros Hplain Hstep Hinv.
  assert (forall q : pool, heap q = heap p -> _workers q = _workers p ->
            forall extra, _work_queue q = _work_queue p ++ extra -> drains false n0 q)
    as Hsame.
  { intros q Hh Hws extra Hq. apply (drains_grow n0 p q [] extra); try done.
    by rewrite app_nil_r. }
  destruct a as [i | | | | task args | task | fid | fid cb | fid e]; try done;
    simpl in Hstep.
  - destruct (worker_step i p) as [p1 |] eqn:Hws; [| done].
    injection Hstep as <- <-. by apply (drains_worker_step false n0 i p).
  - destruct at_ as [| c i | c j | c | [|] | k |]; simpl in Hstep; try done.
    + destruct (_workers p !! i) as [w |]; injection Hstep as <- <-;
        [| by apply (Hsame p eq_refl eq_refl []), eq_sym, app_nil_r].
      destruct (is_alive w);
        [by apply (Hsame (put None p) eq_refl eq_refl [None])
        | by apply (Hsame p eq_refl eq_refl []), eq_sym, app_nil_r].
    + destruct (_workers p !! j) as [w |]; [destruct (is_alive w) |];
        injection Hstep as <- <-; done.
    + injection Hstep as <- <-. done.
    + injection Hstep as <- <-. done.
    + injection Hstep as <- <-. done.
    + destruct (_workers p !! k) as [w |] eqn:Hw.
      * destruct Hinv as (fs & rest & Hq & Hopen & Hfs & Hserv & Hres & Hne & Hheap).
        rewrite (proj1 (Forall_lookup _ _) Hres k w Hw) in Hstep.
        injection Hstep as <- <-.
        by exists fs, rest.
      * injection Hstep as <- <-.
        by apply (Hsame (set_closed true p) eq_refl eq_refl []), eq_sym, app_nil_r.
    + injection Hstep as <- <-. done.
  - destruct at_; try done. injection Hstep as <- <-. done.
  - injection Hstep as <- <-.
    by apply (drains_grow n0 p _ [AFuture (Future.__init__ task args)]
                [Some (length (heap p))]).
Qed.

Lemma drains_run (n0 : nat) (schedule : list action) :
  Forall plain_method schedule ->
  forall s s', drains false n0 s.2 -> run schedule s = Some s' -> drains false n0 s'.2.
Proof.
  induction 1 as [| a rest Ha _ IH]; intros s s' Hinv Hrun; simpl in Hrun.
  - by injection Hrun as <-.
  - destruct (perform a s) as [s0 |] eqn:Hstep; [| done]. simpl in Hrun.
    apply (IH s0); [| done]. by apply (drains_perform n0 a s).
Qed.

(** The task and the arguments of a submitted future are never replaced. *)
Lemma perform_keeps_task (a : action) (s s' : pc * pool) (future : nat) (f : Future.t) :
  perform a s = Some s' ->
  heap s.2 !! future = Some (AFuture f) ->
  exists f', heap s'.2 !! future = Some (AFuture f')
    /\ Future._task f' = Future._task f /\ Future._args f' = Future._args f.
Proof.
  intros Hstep Hf.
  assert ((exists i, a = WorkerStep i) \/ (forall i, a <> WorkerStep i)) as [[i ->] | Hclient]
    by (destruct a; (by left; eexists) || (by right)).
  - destruct s as [at_ p], s' as [at' p']. simpl in Hstep, Hf. cbn [snd].
    destruct (worker_step i p) as [p1 |] eqn:Hws; [| done].
    injection Hstep as <- <-.
    assert (future < length (heap p))%nat as Hlt by (by eapply lookup_lt_Some).
    destruct (worker_step_cases i p p1 Hws)
      as (w & Hw & [[Hst [q [[Hq' ->] | [held [Hq' ->]]]]]
                   | [(held & r & g & Hst & Hr & Hg & ->)
                     | [(held & g & Hst & Hr & Hg & ->) | (held & Hst & Hkind & ->)]]]);
      cbn [heap set_thread set_workers set_future set_heap set_queue emit];
      try (by exists f).
    + destruct (decide (future = held)) as [-> | Hother]; [congruence |].
      rewrite list_lookup_insert_ne by done. by exists f.
    + destruct (decide (future = held)) as [-> | Hother].
      * rewrite Hg in Hf. injection Hf as ->.
        exists (Future._run f).1. split; [by apply list_lookup_insert_eq |].
        unfold Future._run.
        destruct (Future._task f (Future._args f)) as [v | e]; [done |].
        by destruct (isinstance_Exception e).
      * rewrite list_lookup_insert_ne by done. by exists f.
  - exists f. split; [| done]. by apply (perform_keeps_future a s s').
Qed.

Lemma run_keeps_task (schedule : list action) :
  forall (s s' : pc * pool) (future : nat) (f : Future.t),
    run schedule s = Some s' ->
    heap s.2 !! future = Some (AFuture f) ->
    exists f', heap s'.2 !! future = Some (AFuture f')
      /\ Future._task f' = Future._task f /\ Future._args f' = Future._args f.
Proof.
  induction schedule as [| a rest IH]; intros s s' future f Hrun Hf; simpl in Hrun.
  - injection Hrun as <-. by exists f.
  - destruct (perform a s) as [s0 |] eqn:Hstep; [| done]. simpl in Hrun.
    destruct (perform_keeps_task a s s0 future f Hstep Hf) as (f0 & Hf0 & Ht0 & Ha0).
    destruct (IH s0 s' future f0 Hrun Hf0) as (f' & Hf' & Ht' & Ha').
    exists f'. split; [done |]. split; congruence.
Qed.

(** Whatever was submitted to a [ThreadPoolExecutor] (with at least one
    worker) before [shutdown] was called has been run when all the worker
    threads have ended, which is when [shutdown] returns: under any
    interleaving, and whatever is submitted afterwards, each of these futures
    is finished and its [result] gives what its task gives, provided these
    tasks raise nothing but instances of [Exception]. *)
Theorem shutdown_leaves_no_task_behind
    (cpu_count : nat) (num_workers : option nat) (before after : list action)
    (s1 s2 : pc * pool) (future : nat) (f1 : Future.t) :
  (0 < default cpu_count num_workers)%nat ->
  Forall before_shutdown before ->
  run before (Ready, ThreadPoolExecutor.__init__ cpu_count num_workers) = Some s1 ->
  heap s1.2 !! future = Some (AFuture f1) ->
  Forall plain_method after ->
  run after s1 = Some s2 ->
  all_terminated s2.2 ->
  exists f2,
    heap s2.2 !! future = Some (AFuture f2)
    /\ Future._finished f2 = true
    /\ forall tm, Future.result f2 tm = Completes (Future._task f1 (Future._args f1)).
Proof.
  intros Hpos Hbefore Hrun1 Hf1 Hafter Hrun2 Hended.
  assert (drains true (length (heap s1.2)) s1.2) as Hopen.
  { apply (drains_before_shutdown before Hbefore
             (Ready, ThreadPoolExecutor.__init__ cpu_count num_workers)); [| done].
    by apply drains_init. }
  assert (drains false (length (heap s1.2)) s1.2) as Hclosed.
  { destruct Hopen as (fs & rest & Hq & Hop & Hfs & Hserv & Hres & Hne & Hheap).
    exists fs, rest. split; [done |]. split; [done |]. split; [done |].
    split; [| done]. intros [? | Hfs']; [done |]. apply Hserv. by right. }
  destruct (drains_run _ after Hafter s1 s2 Hclosed Hrun2)
    as (fs & rest & Hq & _ & Hfs & Hserv & Hres & Hne & Hheap).
  destruct (Hheap future) as (f2 & Hf2 & [Hcaught Hdone] & Hpending);
    [by eapply lookup_lt_Some |].
  destruct (run_keeps_task after s1 s2 future f1 Hrun2 Hf1) as (f2' & Hf2' & Htask & Hargs).
  rewrite Hf2 in Hf2'. injection Hf2' as <-.
  exists f2. split; [done |].
  destruct (Future._finished f2) eqn:Hfin.
  - split; [done |]. intros tm. by rewrite Hdone, Htask, Hargs.
  - exfalso. destruct (Hpending eq_refl) as [Hin | (i & w & Hw & Hst)].
    + destruct fs as [| fid fs']; [by apply elem_of_nil in Hin |].
      destruct (_workers s2.2) as [| w ws] eqn:Hws; [done |].
      assert (serving (length (heap s1.2)) w) as [Hwait | (held & Hrun & _)].
      { assert (fid :: fs' <> []) as Hne' by done.
        specialize (Hserv (or_intror Hne')). by apply Forall_cons in Hserv as [? _]. }
      * unfold all_terminated in Hended. rewrite Hws in Hended.
        apply Forall_cons in Hended as [Hdead _].
        unfold is_alive in Hdead. by rewrite Hwait in Hdead.
      * unfold all_terminated in Hended. rewrite Hws in Hended.
        apply Forall_cons in Hended as [Hdead _].
        unfold is_alive in Hdead. by rewrite Hrun in Hdead.
    + pose proof (proj1 (Forall_lookup _ _) Hended i w Hw) as Hdead.
      unfold is_alive in Hdead. by rewrite Hst in Hdead.
Qed.

Lemma shutdown_leaves_no_task_behind_witness :
  exists f2,
    heap example_all_done.2 !! 0%nat = Some (AFuture f2)
    /\ Future._finished f2 = true
    /\ forall tm, Future.result f2 tm = Completes (failing_task []).
Proof.
  refine (shutdown_leaves_no_task_behind 4 (Some 1%nat)
            [SubmitTask failing_task []; SubmitTask increment_task [PyInt 6]; WorkerStep 0]
            [WorkerStep 0; WorkerStep 0; WorkerStep 0; CallShutdown; MainStep; MainStep;
             WorkerStep 0; MainStep; MainStep; MainStep]
            (Ready, example_running failing_task) example_all_done 0
            (Future.__init__ failing_task []) _ _ _ _ _ _ _).
  - simpl. lia.
  - repeat constructor.
    + intros e [= <-]. reflexivity.
    + intros e He. discriminate He.
  - reflexivity.
  - reflexivity.
  - repeat constructor.
  - reflexivity.
  - repeat constructor.
Defined.
